(** * RoomPage: quorum election and the client-local phase controller

    A shallow embedding of the coordination logic of
    [src/pages/RoomPage.jsx]: the room loader ([init]), the presence
    [sync] handler that elects the single writer, the [postgres_changes]
    handler that drives the display phase, and the intro timer.

    The component is modelled as a record of everything its callbacks
    read or write (React state, the two refs, the closure variables of
    the effect, the timer queue of the JavaScript runtime, the requests
    sent to the store and the console), and every callback as a function
    on that record. *)

From Stdlib Require Import String Ascii ZArith List Bool Lia.
From Stdlib Require Import Sorting.Permutation Sorting.Sorted Sorting.Mergesort Orders.
Import ListNotations.

Local Open Scope string_scope.
Local Open Scope Z_scope.

(** ** Identifiers and their order

    Client identifiers are JavaScript strings ([crypto.randomUUID()] or a
    timestamp followed by hexadecimal digits), all ASCII.  [Array.sort]
    without a comparator orders strings by code units, which on such
    strings is the byte-wise lexicographic order [String.leb]. *)

Module IdOrder <: TotalLeBool.
Definition t := string.
Definition leb : t -> t -> bool := String.leb.
Lemma leb_total : forall a b : t, leb a b = true \/ leb b a = true.
Proof. exact String.leb_total. Qed.
End IdOrder.

Module IdSort := Sort IdOrder.

(** [[...ids].sort()]: a sorted copy, the argument is left as it is. *)
Definition sort (ids : list string) : list string := IdSort.sort ids.

(** ** The room record

    A row of table [rooms] as the component uses it. *)

Module Room.
Record t := mk {
  id : string;
  status : string;
  required_players : Z;
  game_title : string;
  suit : string;
  game_name : string;
  rules : string
}.
End Room.

(** [phase] only ever holds one of the three literals the component
    passes to [setPhase]. *)
Inductive Phase := waiting | intro | rules.

Definition phase_eqb (a b : Phase) : bool :=
  match a, b with
  | waiting, waiting | intro, intro | rules, rules => true
  | _, _ => false
  end.

(** ** Requests to the store

    [supabase.from(table).update(fields).eq(column, value)]. *)

Inductive Value := VText (s : string) | VInt (z : Z).

Record UpdateReq := mkUpdate {
  upd_table : string;
  upd_fields : list (string * Value);
  upd_eq : list (string * Value)
}.

(** ** Timers of the runtime

    [setTimeout(cb, ms)] queues a one-shot timer and returns its handle, a
    positive number; the only callback the component ever schedules is
    [() => setPhase('rules')]. *)

Inductive Callback := SetPhase (p : Phase).

Record Timer := mkTimer {
  handle : nat;
  delay : Z;
  callback : Callback
}.

Inductive LogEntry :=
| load_room_error (e : string)
| update_room_error (e : string).

(** ** The component

    [roomId] comes from the route and [clientId] is drawn once per tab;
    both are fixed for the life of one effect instance. *)

Record Props := mkProps {
  roomId : string;
  clientId : string
}.

(** [supabase.channel(name, { config: { presence: { key } } })] *)
Record Channel := mkChannel {
  topic : string;
  presence_key : string
}.

Record Client := mkClient {
  room : option Room.t;            (* useState(null) *)
  phase : Phase;                 (* useState('waiting') *)
  playersCount : nat;            (* useState(0) *)
  roomRef : option Room.t;         (* useRef(null), written by an effect *)
  phaseRef : Phase;              (* useRef('waiting'), written when rendering *)
  introTimeout : option nat;     (* let introTimeout = null *)
  channel : option Channel;      (* let channel = null *)
  loading : bool;                (* init() is awaiting the point read *)
  timers : list Timer;           (* pending timers of the runtime *)
  nextHandle : nat;              (* next handle setTimeout hands out *)
  outbox : list UpdateReq;       (* updates sent to the store, oldest first *)
  console : list LogEntry        (* console.error calls, oldest first *)
}.

(** *** State setters *)

Definition setRoom (r : option Room.t) (s : Client) : Client :=
  mkClient r (phase s) (playersCount s) (roomRef s) (phaseRef s)
    (introTimeout s) (channel s) (loading s) (timers s) (nextHandle s)
    (outbox s) (console s).

Definition setPhase (p : Phase) (s : Client) : Client :=
  mkClient (room s) p (playersCount s) (roomRef s) (phaseRef s)
    (introTimeout s) (channel s) (loading s) (timers s) (nextHandle s)
    (outbox s) (console s).

Definition setPlayersCount (n : nat) (s : Client) : Client :=
  mkClient (room s) (phase s) n (roomRef s) (phaseRef s)
    (introTimeout s) (channel s) (loading s) (timers s) (nextHandle s)
    (outbox s) (console s).

(** *** Timers *)

(** [introTimeout = setTimeout(cb, ms)] *)
Definition setTimeout (cb : Callback) (ms : Z) (s : Client) : Client :=
  mkClient (room s) (phase s) (playersCount s) (roomRef s) (phaseRef s)
    (Some (nextHandle s)) (channel s) (loading s)
    (timers s ++ [mkTimer (nextHandle s) ms cb]) (S (nextHandle s))
    (outbox s) (console s).

(** [clearTimeout(h)]: a pending timer with that handle is dropped, a
    handle that already fired is ignored. *)
Definition clearTimeout (h : nat) (s : Client) : Client :=
  mkClient (room s) (phase s) (playersCount s) (roomRef s) (phaseRef s)
    (introTimeout s) (channel s) (loading s)
    (filter (fun t => negb (Nat.eqb (handle t) h)) (timers s)) (nextHandle s)
    (outbox s) (console s).

(** [if (introTimeout) clearTimeout(introTimeout)]; handles are positive,
    so the test only fails on [null]. *)
Definition clearIntroTimeout (s : Client) : Client :=
  match introTimeout s with
  | Some h => clearTimeout h s
  | None => s
  end.

Definition send (q : UpdateReq) (s : Client) : Client :=
  mkClient (room s) (phase s) (playersCount s) (roomRef s) (phaseRef s)
    (introTimeout s) (channel s) (loading s) (timers s) (nextHandle s)
    (outbox s ++ [q]) (console s).

Definition console_error (e : LogEntry) (s : Client) : Client :=
  mkClient (room s) (phase s) (playersCount s) (roomRef s) (phaseRef s)
    (introTimeout s) (channel s) (loading s) (timers s) (nextHandle s)
    (outbox s) (console s ++ [e]).

(** [channel = supabase.channel(...)] with both handlers registered and
    [subscribe] called; [init] has then run to its end. *)
Definition openChannel (c : Channel) (s : Client) : Client :=
  mkClient (room s) (phase s) (playersCount s) (roomRef s) (phaseRef s)
    (introTimeout s) (Some c) false (timers s) (nextHandle s)
    (outbox s) (console s).

Definition stopLoading (s : Client) : Client :=
  mkClient (room s) (phase s) (playersCount s) (roomRef s) (phaseRef s)
    (introTimeout s) (channel s) false (timers s) (nextHandle s)
    (outbox s) (console s).

(** A render pass: the body runs [phaseRef.current = phase], and the
    effect on [room] then runs [roomRef.current = room]. *)
Definition render (s : Client) : Client :=
  mkClient (room s) (phase s) (playersCount s) (room s) (phase s)
    (introTimeout s) (channel s) (loading s) (timers s) (nextHandle s)
    (outbox s) (console s).

(** *** Mounting

    The effect returns at once when the route has no [roomId]; otherwise
    it calls [init], which sends the point read and waits. *)
Definition mount (p : Props) : Client :=
  mkClient None waiting 0%nat None waiting None None
    (negb (String.eqb (roomId p) "")) [] 1%nat [] [].

(** *** [init], resumed with the answer of the point read *)
Definition init_resume (p : Props) (res : Room.t + string) (s : Client) : Client :=
  match res with
  | inr e => stopLoading (console_error (load_room_error e) s)
  | inl data =>
      let s1 := setRoom (Some data) s in
      let s2 :=
        if String.eqb (Room.status data) "started"
        then setTimeout (SetPhase rules) 5000 (setPhase intro s1)
        else s1 in
      openChannel (mkChannel ("room-" ++ roomId p) (clientId p)) s2
  end.

(** *** The presence [sync] handler *)

(** The request of lines 77-80. *)
Definition start_request (p : Props) : UpdateReq :=
  mkUpdate "rooms" [("status", VText "started")] [("id", VText (roomId p))].

(** [smallestId === clientId], with [smallestId = [...ids].sort()[0]]
    ([undefined] on an empty snapshot, which equals no string). *)
Definition is_leader (p : Props) (ids : list string) : bool :=
  match sort ids with
  | smallestId :: _ => String.eqb smallestId (clientId p)
  | [] => false
  end.

Definition on_presence_sync (p : Props) (ids : list string) (s : Client) : Client :=
  let count := length ids in
  let s1 := setPlayersCount count s in
  match roomRef s1 with
  | None => s1
  | Some r =>
      if String.eqb (Room.status r) "waiting" && (Z.of_nat count >=? Room.required_players r)
      then if is_leader p ids then send (start_request p) s1 else s1
      else s1
  end.

(** [.then(({ error: updError }) => ...)] *)
Definition on_update_result (err : option string) (s : Client) : Client :=
  match err with
  | Some e => console_error (update_room_error e) s
  | None => s
  end.

(** *** The [postgres_changes] handler *)
Definition on_room_update (newRoom : Room.t) (s : Client) : Client :=
  let s1 := setRoom (Some newRoom) s in
  let s2 :=
    if String.eqb (Room.status newRoom) "started"
       && negb (phase_eqb (phaseRef s1) intro)
       && negb (phase_eqb (phaseRef s1) rules)
    then setTimeout (SetPhase rules) 5000
           (clearIntroTimeout (setPhase intro s1))
    else s1 in
  if String.eqb (Room.status newRoom) "waiting" then setPhase waiting s2 else s2.

(** *** A timer elapsing: it leaves the queue and its callback runs *)
Definition run_callback (cb : Callback) (s : Client) : Client :=
  match cb with
  | SetPhase p => setPhase p s
  end.

Definition fire (h : nat) (s : Client) : Client :=
  match find (fun t => Nat.eqb (handle t) h) (timers s) with
  | Some t => run_callback (callback t) (clearTimeout h s)
  | None => s
  end.

(** *** Teardown of the effect *)
Definition cleanup (s : Client) : Client :=
  let s1 := clearIntroTimeout s in
  mkClient (room s1) (phase s1) (playersCount s1) (roomRef s1) (phaseRef s1)
    (introTimeout s1) None (loading s1) (timers s1) (nextHandle s1)
    (outbox s1) (console s1).

(** ** Events of one client

    Each callback runs to completion before the next one starts.  A
    handler registered on the channel only runs once [init] has created
    the channel, and [init] resumes once. *)

Inductive Event :=
| InitResult (res : Room.t + string)      (* the point read answers *)
| PresenceSync (ids : list string)        (* Object.keys(channel.presenceState()) *)
| RoomUpdate (newRoom : Room.t)           (* payload.new of an UPDATE *)
| UpdateResult (err : option string)      (* the update request answers *)
| TimerFires (h : nat)
| Render.

Definition handle_event (p : Props) (e : Event) (s : Client) : Client :=
  match e with
  | InitResult res => if loading s then init_resume p res s else s
  | PresenceSync ids =>
      match channel s with Some _ => on_presence_sync p ids s | None => s end
  | RoomUpdate newRoom =>
      match channel s with Some _ => on_room_update newRoom s | None => s end
  | UpdateResult err =>
      match outbox s with [] => s | _ :: _ => on_update_result err s end
  | TimerFires h => fire h s
  | Render => render s
  end.

Definition run (p : Props) (evs : list Event) (s : Client) : Client :=
  fold_left (fun st e => handle_event p e st) evs s.

Definition reachable (p : Props) (s : Client) : Prop :=
  exists evs, s = run p evs (mount p).

(** ** The store

    The Room State Store is an external collaborator (a table [rooms]
    behind the supabase client); the component only sends requests to
    it.  Its side is modelled below: the table is a list of rows, and an
    update sets the given columns on every row that satisfies all [eq]
    filters and leaves the other rows as they are. *)

Definition value_eqb (a b : Value) : bool :=
  match a, b with
  | VText x, VText y => String.eqb x y
  | VInt x, VInt y => Z.eqb x y
  | _, _ => false
  end.

Definition get_column (c : string) (r : Room.t) : option Value :=
  if String.eqb c "id" then Some (VText (Room.id r))
  else if String.eqb c "status" then Some (VText (Room.status r))
  else if String.eqb c "required_players" then Some (VInt (Room.required_players r))
  else if String.eqb c "game_title" then Some (VText (Room.game_title r))
  else if String.eqb c "suit" then Some (VText (Room.suit r))
  else if String.eqb c "game_name" then Some (VText (Room.game_name r))
  else if String.eqb c "rules" then Some (VText (Room.rules r))
  else None.

Definition set_column (cv : string * Value) (r : Room.t) : Room.t :=
  match cv with
  | (c, VText v) =>
      if String.eqb c "id" then
        Room.mk v (Room.status r) (Room.required_players r) (Room.game_title r)
          (Room.suit r) (Room.game_name r) (Room.rules r)
      else if String.eqb c "status" then
        Room.mk (Room.id r) v (Room.required_players r) (Room.game_title r)
          (Room.suit r) (Room.game_name r) (Room.rules r)
      else if String.eqb c "game_title" then
        Room.mk (Room.id r) (Room.status r) (Room.required_players r) v
          (Room.suit r) (Room.game_name r) (Room.rules r)
      else if String.eqb c "suit" then
        Room.mk (Room.id r) (Room.status r) (Room.required_players r)
          (Room.game_title r) v (Room.game_name r) (Room.rules r)
      else if String.eqb c "game_name" then
        Room.mk (Room.id r) (Room.status r) (Room.required_players r)
          (Room.game_title r) (Room.suit r) v (Room.rules r)
      else if String.eqb c "rules" then
        Room.mk (Room.id r) (Room.status r) (Room.required_players r)
          (Room.game_title r) (Room.suit r) (Room.game_name r) v
      else r
  | (c, VInt v) =>
      if String.eqb c "required_players" then
        Room.mk (Room.id r) (Room.status r) v (Room.game_title r)
          (Room.suit r) (Room.game_name r) (Room.rules r)
      else r
  end.

Definition matches (flt : list (string * Value)) (r : Room.t) : bool :=
  forallb (fun cv =>
             match get_column (fst cv) r with
             | Some v => value_eqb v (snd cv)
             | None => false
             end) flt.

(** Modelled from the spec: the store's [update_room(room_id, fields)],
    which is outside this repository; section 6 gives it as an
    unconditional field-set update filtered by primary key only.  This is
    its effect on one row. *)
Definition update_row (q : UpdateReq) (r : Room.t) : Room.t :=
  if matches (upd_eq q) r
  then fold_left (fun row cv => set_column cv row) (upd_fields q) r
  else r.

(** Modelled from the spec: the store's [update_room] applied to the
    table the request names. *)
Definition update_room (q : UpdateReq) (rows : list Room.t) : list Room.t :=
  if String.eqb (upd_table q) "rooms" then map (update_row q) rows else rows.

(** Requests reaching the store one after the other. *)
Definition update_all (qs : list UpdateReq) (rows : list Room.t) : list Room.t :=
  fold_left (fun t q => update_room q t) qs rows.

(** ** Vocabulary of the statements *)

(** [c] is the lexicographically smallest identity of the snapshot. *)
Definition smallest (c : string) (ids : list string) : Prop :=
  In c ids /\ forall x, In x ids -> String.leb c x = true.

(** Every pending timer is the one [introTimeout] refers to, and while
    [init] still waits for the point read there is neither a timer nor a
    channel. *)
Definition timer_owned (s : Client) : Prop :=
  (timers s = [] \/
   exists t, timers s = [t] /\ introTimeout s = Some (handle t))
  /\ (loading s = true -> timers s = [] /\ channel s = None).

(** The state of a client whose point read failed: no channel, no timer,
    phase [waiting], nothing sent. *)
Definition inert (s : Client) : Prop :=
  loading s = false /\ channel s = None /\ timers s = [] /\
  phase s = waiting /\ outbox s = [] /\ room s = None.

(** A request was issued by the quorum elector of some client. *)
Definition elector_issued (q : UpdateReq) : Prop :=
  exists p evs, In q (outbox (run p evs (mount p))).

(** Events other than a change notification from the store. *)
Definition lone_event (e : Event) : Prop :=
  match e with
  | RoomUpdate _ => False
  | PresenceSync ids => (length ids <= 1)%nat
  | _ => True
  end.

(** What a lone client keeps after loading room [r]: nothing sent, phase
    [waiting], no timer, and no record cached other than [r]. *)
Definition lone_state (r : Room.t) (s : Client) : Prop :=
  outbox s = [] /\ phase s = waiting /\ timers s = [] /\
  loading s = false /\
  (forall r', room s = Some r' -> r' = r) /\
  (forall r', roomRef s = Some r' -> r' = r).

(** How one row may differ after requests of the elector: its status is
    as before or [started]. *)
Definition status_step (r r' : Room.t) : Prop :=
  Room.status r' = Room.status r \/ Room.status r' = "started".

(** What the update of client [p] may change in a row: nothing outside
    the status column, nothing at all in the rows of other rooms, and the
    status of room [roomId p] whatever it was. *)
Definition status_only (p : Props) (r r' : Room.t) : Prop :=
  Room.id r' = Room.id r /\
  Room.required_players r' = Room.required_players r /\
  Room.game_title r' = Room.game_title r /\
  Room.suit r' = Room.suit r /\
  Room.game_name r' = Room.game_name r /\
  Room.rules r' = Room.rules r /\
  (Room.id r <> roomId p -> r' = r) /\
  (Room.id r = roomId p -> Room.status r' = "started").

(** ** What the component renders

    The [.content] box holds three conditional blocks, each an element
    when its test holds and nothing otherwise; the [.status-players] span
    shows [playersCount] over [room?.required_players ?? 0]. *)

Inductive Panel :=
| Placeholder
| IntroCard (game_title suit game_name : string)
| RulesCard (rules_text : string).

Definition content (s : Client) : list Panel :=
  ((if phase_eqb (phase s) waiting then [Placeholder] else []) ++
   (match phase_eqb (phase s) intro, room s with
    | true, Some r =>
        [IntroCard (Room.game_title r) (Room.suit r) (Room.game_name r)]
    | _, _ => []
    end) ++
   (match phase_eqb (phase s) rules, room s with
    | true, Some r => [RulesCard (Room.rules r)]
    | _, _ => []
    end))%list.

Definition requiredPlayers (s : Client) : Z :=
  match room s with
  | Some r => Room.required_players r
  | None => 0
  end.

Definition status_players (s : Client) : nat * Z :=
  (playersCount s, requiredPlayers s).

(** ** Several clients on one snapshot *)

(** The number of requests client [p] sends when it handles [ids]. *)
Definition sent (p : Props) (ids : list string) (s : Client) : nat :=
  (length (outbox (on_presence_sync p ids s)) - length (outbox s))%nat.

Definition total_sent (ids : list string) (cs : list (Props * Client)) : nat :=
  list_sum (map (fun c => sent (fst c) ids (snd c)) cs).

(** ** Invariants of a run *)

(** Every pending timer is the intro timer: 5000 ms, callback
    [setPhase('rules')], a positive handle below the next one; and so is
    the handle kept in [introTimeout]. *)
Definition timers_ok (s : Client) : Prop :=
  (1 <= nextHandle s)%nat /\
  (forall t, In t (timers s) ->
     delay t = 5000 /\ callback t = SetPhase rules /\
     (1 <= handle t < nextHandle s)%nat) /\
  (forall h, introTimeout s = Some h -> (1 <= h < nextHandle s)%nat).

(** In [intro] the timer is pending, in [rules] none is. *)
Definition phase_timer (s : Client) : Prop :=
  (phase s = intro ->
     exists t, timers s = [t] /\ introTimeout s = Some (handle t)) /\
  (phase s = rules -> timers s = []).

(** Outside [waiting], and whenever a timer is pending, a room record is
    cached; while [init] waits nothing has happened yet. *)
Definition room_known (s : Client) : Prop :=
  (phase s <> waiting \/ timers s <> [] -> room s <> None) /\
  (loading s = true -> phase s = waiting /\ introTimeout s = None).

(** The channel, once opened, is the one of this room and this client. *)
Definition channel_ok (p : Props) (s : Client) : Prop :=
  forall c, channel s = Some c ->
    c = mkChannel ("room-" ++ roomId p) (clientId p) /\
    loading s = false /\ room s <> None.

Definition run_inv (p : Props) (s : Client) : Prop :=
  timer_owned s /\ timers_ok s /\ phase_timer s /\ room_known s /\
  channel_ok p s.

(** Events that deliver no snapshot. *)
Definition no_sync (e : Event) : Prop :=
  match e with PresenceSync _ => False | _ => True end.

(** Events that deliver no room record. *)
Definition no_record (e : Event) : Prop :=
  match e with RoomUpdate _ | InitResult _ => False | _ => True end.

(** Events other than a timer elapsing. *)
Definition no_timer (e : Event) : Prop :=
  match e with TimerFires _ => False | _ => True end.

(** ** A room and two clients used in examples *)

Definition room_r1 (st : string) : Room.t :=
  Room.mk "r1" st 2 "GAME" "S" "Tag" "Run.".

Definition client_aaa : Props := mkProps "r1" "aaa".
Definition client_bbb : Props := mkProps "r1" "bbb".

(** [client_aaa] after loading [room_r1 "waiting"] and rendering. *)
Definition aaa_waiting : Client :=
  run client_aaa [InitResult (inl (room_r1 "waiting")); Render] (mount client_aaa).

(** [client_bbb] in the same room at the same point. *)
Definition bbb_waiting : Client :=
  run client_bbb [InitResult (inl (room_r1 "waiting")); Render] (mount client_bbb).

(** [client_aaa] right after loading, before the first render pass. *)
Definition aaa_loaded : Client :=
  run client_aaa [InitResult (inl (room_r1 "waiting"))] (mount client_aaa).

(** [client_aaa] showing the intro after a [started] notification. *)
Definition aaa_intro : Client :=
  run client_aaa [RoomUpdate (room_r1 "started"); Render] aaa_waiting.

(** A run in which [client_aaa] sees both clients present. *)
Definition aaa_elected : list Event :=
  [InitResult (inl (room_r1 "waiting")); Render; PresenceSync ["bbb"; "aaa"]].

(** A table holding room [r1] and one other room. *)
Definition two_rooms : list Room.t :=
  [room_r1 "waiting"; Room.mk "r2" "waiting" 3 "GAME" "H" "Maze" "Walk."].

(** [client_aaa] showing the rules, the intro timer having fired. *)
Definition aaa_rules : Client :=
  run client_aaa [TimerFires 1; Render] aaa_intro.

(** [client_aaa] after a [started] notification that no render pass has
    followed yet: [phase] is [intro], [phaseRef.current] still [waiting]. *)
Definition aaa_stale : Client :=
  run client_aaa [RoomUpdate (room_r1 "started")] aaa_waiting.

(** * Properties *)

(** ** The order on identifiers and the sorted copy *)

Section IdOrderFacts.

Lemma ascii_compare_refl (a : ascii) : Ascii.compare a a = Eq.
Proof. unfold Ascii.compare. apply N.compare_refl. Qed.

Lemma string_compare_refl (s : string) : String.compare s s = Eq.
Proof.
  induction s as [|a s IH]; simpl; [reflexivity|].
  now rewrite ascii_compare_refl.
Qed.

Lemma string_leb_refl (s : string) : String.leb s s = true.
Proof. unfold String.leb. now rewrite string_compare_refl. Qed.

Lemma string_compare_le_trans (a b c : string) :
  String.compare a b <> Gt -> String.compare b c <> Gt ->
  String.compare a c <> Gt.
Proof.
  revert b c.
  induction a as [|x a IH]; intros [|y b] [|z c]; simpl; try congruence.
  unfold Ascii.compare.
  destruct (N.compare_spec (N_of_ascii x) (N_of_ascii y)) as [Hxy|Hxy|Hxy];
    destruct (N.compare_spec (N_of_ascii y) (N_of_ascii z)) as [Hyz|Hyz|Hyz];
    try congruence; intros Hab Hbc.
  - rewrite Hxy, Hyz, N.compare_refl. now apply IH with b.
  - replace (N_of_ascii x ?= N_of_ascii z)%N with Lt; [congruence|].
    symmetry. apply N.compare_lt_iff. lia.
  - replace (N_of_ascii x ?= N_of_ascii z)%N with Lt; [congruence|].
    symmetry. apply N.compare_lt_iff. lia.
  - replace (N_of_ascii x ?= N_of_ascii z)%N with Lt; [congruence|].
    symmetry. apply N.compare_lt_iff. lia.
Qed.

Lemma string_leb_trans (a b c : string) :
  String.leb a b = true -> String.leb b c = true -> String.leb a c = true.
Proof.
  unfold String.leb. intros Hab Hbc.
  pose proof (string_compare_le_trans a b c) as H.
  destruct (String.compare a b); destruct (String.compare b c);
    destruct (String.compare a c); try discriminate; try reflexivity;
    exfalso; apply H; congruence.
Qed.

Lemma sort_perm (ids : list string) : Permutation ids (sort ids).
Proof. apply IdSort.Permuted_sort. Qed.

Lemma sort_in (x : string) (ids : list string) : In x (sort ids) <-> In x ids.
Proof.
  split; intros H.
  - eapply Permutation_in; [apply Permutation_sym, sort_perm | exact H].
  - eapply Permutation_in; [apply sort_perm | exact H].
Qed.

Lemma sort_strongly_sorted (ids : list string) :
  StronglySorted (fun a b => String.leb a b = true) (sort ids).
Proof.
  apply Sorted_StronglySorted.
  - intros a b c. apply string_leb_trans.
  - apply IdSort.Sorted_sort.
Qed.

(** The head of the sorted copy is the smallest identity. *)
Lemma sort_head_smallest (m : string) (rest ids : list string) :
  sort ids = m :: rest -> smallest m ids.
Proof.
  intros Hs. split.
  - apply sort_in. rewrite Hs. now left.
  - intros x Hx. apply sort_in in Hx. rewrite Hs in Hx.
    pose proof (sort_strongly_sorted ids) as Hss. rewrite Hs in Hss.
    inversion Hss as [|? ? _ Hall]; subst.
    destruct Hx as [<-|Hx]; [apply string_leb_refl|].
    rewrite Forall_forall in Hall. now apply Hall.
Qed.

Lemma smallest_unique (a b : string) (ids : list string) :
  smallest a ids -> smallest b ids -> a = b.
Proof.
  intros [Ha Hla] [Hb Hlb]. apply String.leb_antisym; auto.
Qed.

Lemma sort_nil_inv (ids : list string) : sort ids = [] -> ids = [].
Proof.
  intros H. apply Permutation_nil. apply Permutation_sym.
  rewrite <- H. apply sort_perm.
Qed.

End IdOrderFacts.

(** [smallestId === clientId] holds exactly for the smallest identity. *)
Lemma is_leader_spec (p : Props) (ids : list string) :
  is_leader p ids = true <-> smallest (clientId p) ids.
Proof.
  unfold is_leader. destruct (sort ids) as [|m rest] eqn:Hs.
  - split; [discriminate|]. intros [Hin _].
    apply sort_nil_inv in Hs. subst. destruct Hin.
  - pose proof (sort_head_smallest _ _ _ Hs) as Hm. split.
    + intros H. apply String.eqb_eq in H. now subst.
    + intros H. apply String.eqb_eq. eapply smallest_unique; eauto.
Qed.

Lemma is_leader_false (p : Props) (ids : list string) :
  ~ smallest (clientId p) ids -> is_leader p ids = false.
Proof.
  intros H. destruct (is_leader p ids) eqn:E; [|reflexivity].
  apply is_leader_spec in E. contradiction.
Qed.

(** ** Traces *)

Lemma run_cons (p : Props) (e : Event) (evs : list Event) (s : Client) :
  run p (e :: evs) s = run p evs (handle_event p e s).
Proof. reflexivity. Qed.

Lemma run_app (p : Props) (evs evs' : list Event) (s : Client) :
  run p (evs ++ evs') s = run p evs' (run p evs s).
Proof. unfold run. apply fold_left_app. Qed.

(** A property kept by every admitted event holds along the whole trace. *)
Lemma run_invariant (p : Props) (P : Client -> Prop) (Q : Event -> Prop) :
  (forall e s, Q e -> P s -> P (handle_event p e s)) ->
  forall evs s, Forall Q evs -> P s -> P (run p evs s).
Proof.
  intros Hstep evs. induction evs as [|e evs IH]; intros s Hq Hs.
  - exact Hs.
  - inversion Hq; subst. rewrite run_cons. apply IH; auto.
Qed.

Lemma reachable_invariant (p : Props) (P : Client -> Prop) :
  P (mount p) ->
  (forall e s, P s -> P (handle_event p e s)) ->
  forall s, reachable p s -> P s.
Proof.
  intros H0 Hstep s [evs ->].
  apply (run_invariant p P (fun _ => True)); auto.
  apply Forall_forall. auto.
Qed.

(** ** What the presence handler touches *)

Lemma on_presence_sync_cases (p : Props) (ids : list string) (s : Client) :
  on_presence_sync p ids s = setPlayersCount (length ids) s \/
  on_presence_sync p ids s =
    send (start_request p) (setPlayersCount (length ids) s).
Proof.
  unfold on_presence_sync. simpl.
  destruct (roomRef s) as [r|]; auto.
  destruct (_ && _); auto.
  destruct (is_leader p ids); auto.
Qed.

Lemma on_presence_sync_frame (p : Props) (ids : list string) (s : Client) :
  let s' := on_presence_sync p ids s in
  phase s' = phase s /\ timers s' = timers s /\
  introTimeout s' = introTimeout s /\ loading s' = loading s /\
  channel s' = channel s /\ room s' = room s /\ roomRef s' = roomRef s /\
  phaseRef s' = phaseRef s /\ console s' = console s /\
  playersCount s' = length ids.
Proof.
  destruct (on_presence_sync_cases p ids s) as [H|H]; simpl; rewrite H;
    simpl; repeat split; reflexivity.
Qed.

(** The handler sends a request only past all three tests. *)
Lemma on_presence_sync_sends (p : Props) (ids : list string) (s : Client) :
  outbox (on_presence_sync p ids s) <> outbox s ->
  exists r, roomRef s = Some r /\ Room.status r = "waiting" /\
            Room.required_players r <= Z.of_nat (length ids) /\
            smallest (clientId p) ids.
Proof.
  unfold on_presence_sync. simpl.
  destruct (roomRef s) as [r|]; [|simpl; congruence].
  destruct (String.eqb_spec (Room.status r) "waiting") as [Hw|Hw];
    [|simpl; congruence].
  destruct (Z.geb_spec (Z.of_nat (length ids)) (Room.required_players r))
    as [Hc|Hc]; [|simpl; congruence].
  simpl. destruct (is_leader p ids) eqn:Hl; [|simpl; congruence].
  intros _. exists r. repeat split; try assumption; try lia.
  all: now apply is_leader_spec.
Qed.

(** ** The quorum elector *)

(** C1. For every snapshot with at least [required_players] identities
    received while the cached status is [waiting], the client whose
    identity is the lexicographically smallest of the snapshot sends the
    status-setting update, exactly one request
    [from('rooms').update({ status: 'started' }).eq('id', roomId)], and
    a client whose identity is not the smallest sends nothing. *)
Theorem elected_writer_only (p : Props) (ids : list string) (s : Client) (r : Room.t) :
  roomRef s = Some r ->
  Room.status r = "waiting" ->
  Room.required_players r <= Z.of_nat (length ids) ->
  (smallest (clientId p) ids ->
     outbox (on_presence_sync p ids s)
     = (outbox s ++
        [mkUpdate "rooms" [("status", VText "started")]
           [("id", VText (roomId p))]])%list) /\
  (~ smallest (clientId p) ids ->
     outbox (on_presence_sync p ids s) = outbox s).
Proof.
  intros Hr Hw Hn. unfold on_presence_sync. simpl. rewrite Hr, Hw. simpl.
  destruct (Z.geb_spec (Z.of_nat (length ids)) (Room.required_players r))
    as [_|Hc]; [|lia].
  split; intros Hs.
  - apply is_leader_spec in Hs. now rewrite Hs.
  - apply is_leader_false in Hs. now rewrite Hs.
Qed.

Lemma smallest_aaa : smallest "aaa" ["bbb"; "aaa"].
Proof.
  split; [right; left; reflexivity|].
  intros x [<-|[<-|[]]]; reflexivity.
Defined.

Lemma not_smallest_bbb : ~ smallest "bbb" ["bbb"; "aaa"].
Proof.
  intros [_ H]. specialize (H "aaa" (or_intror (or_introl eq_refl))).
  vm_compute in H. discriminate.
Defined.

Lemma elected_writer_only_witness :
  outbox (on_presence_sync client_aaa ["bbb"; "aaa"] aaa_waiting)
    = [mkUpdate "rooms" [("status", VText "started")] [("id", VText "r1")]] /\
  outbox (on_presence_sync client_bbb ["bbb"; "aaa"] bbb_waiting) = [].
Proof.
  split.
  - apply (proj1 (elected_writer_only client_aaa ["bbb"; "aaa"] aaa_waiting
                    (room_r1 "waiting") eq_refl eq_refl
                    ltac:(vm_compute; discriminate))).
    exact smallest_aaa.
  - apply (proj2 (elected_writer_only client_bbb ["bbb"; "aaa"] bbb_waiting
                    (room_r1 "waiting") eq_refl eq_refl
                    ltac:(vm_compute; discriminate))).
    exact not_smallest_bbb.
Defined.

(** C10. A presence sync handled while the cached room record is absent
    sets the player count to the snapshot size and returns: no election,
    no request. *)
Theorem sync_before_room_known (p : Props) (ids : list string) (s : Client) :
  roomRef s = None ->
  on_presence_sync p ids s = setPlayersCount (length ids) s /\
  playersCount (on_presence_sync p ids s) = length ids /\
  outbox (on_presence_sync p ids s) = outbox s /\
  outbox (handle_event p (PresenceSync ids) s) = outbox s.
Proof.
  intros Hr.
  assert (H : on_presence_sync p ids s = setPlayersCount (length ids) s).
  { unfold on_presence_sync. simpl. now rewrite Hr. }
  repeat split; try (rewrite H; reflexivity).
  simpl. destruct (channel s); [rewrite H|]; reflexivity.
Qed.

Lemma sync_before_room_known_witness :
  playersCount (on_presence_sync client_aaa ["aaa"; "bbb"] aaa_loaded) = 2%nat /\
  outbox (on_presence_sync client_aaa ["aaa"; "bbb"] aaa_loaded) = [].
Proof.
  destruct (sync_before_room_known client_aaa ["aaa"; "bbb"] aaa_loaded eq_refl)
    as (_ & Hc & Ho & _).
  split; [exact Hc | exact Ho].
Defined.

(** ** The intro timer *)

Lemma clearIntroTimeout_owned (s : Client) :
  timer_owned s -> timers (clearIntroTimeout s) = [].
Proof.
  intros [[H|(t & Ht & Hi)] _]; unfold clearIntroTimeout.
  - destruct (introTimeout s); simpl; rewrite H; reflexivity.
  - rewrite Hi. simpl. rewrite Ht. simpl. now rewrite Nat.eqb_refl.
Qed.

Lemma clearIntroTimeout_frame (s : Client) :
  let s' := clearIntroTimeout s in
  phase s' = phase s /\ nextHandle s' = nextHandle s /\
  loading s' = loading s /\ channel s' = channel s /\
  introTimeout s' = introTimeout s /\ outbox s' = outbox s.
Proof.
  unfold clearIntroTimeout. destruct (introTimeout s) eqn:E; simpl;
    repeat split; auto.
Qed.

Lemma find_handle (h : nat) (l : list Timer) (t : Timer) :
  find (fun t => Nat.eqb (handle t) h) l = Some t -> In t l /\ handle t = h.
Proof.
  intros H. apply find_some in H. destruct H as [Hin He].
  split; [exact Hin | now apply Nat.eqb_eq].
Qed.

Lemma init_resume_owned (p : Props) (res : Room.t + string) (s : Client) :
  timers s = [] -> timer_owned (init_resume p res s).
Proof.
  intros Ht. unfold init_resume, timer_owned.
  destruct res as [data|e]; simpl.
  - destruct (String.eqb (Room.status data) "started"); simpl; rewrite Ht.
    + split; [right|discriminate].
      eexists. split; reflexivity.
    + split; [now left|discriminate].
  - rewrite Ht. split; [now left|discriminate].
Qed.

Lemma on_room_update_owned (newRoom : Room.t) (s : Client) :
  loading s = false -> timer_owned s -> timer_owned (on_room_update newRoom s).
Proof.
  intros Hl Hown. unfold on_room_update.
  set (s1 := setRoom (Some newRoom) s).
  assert (Hown1 : timer_owned s1) by exact Hown.
  assert (Hl1 : loading s1 = false) by exact Hl.
  assert (Hgoal : timer_owned
            (if String.eqb (Room.status newRoom) "started"
                && negb (phase_eqb (phaseRef s1) intro)
                && negb (phase_eqb (phaseRef s1) rules)
             then setTimeout (SetPhase rules) 5000
                    (clearIntroTimeout (setPhase intro s1))
             else s1)).
  { destruct (_ && _); [|exact Hown1].
    assert (Hc : timers (clearIntroTimeout (setPhase intro s1)) = [])
      by (apply clearIntroTimeout_owned; exact Hown1).
    destruct (clearIntroTimeout_frame (setPhase intro s1))
      as (_ & _ & Hld & _).
    unfold timer_owned. simpl. rewrite Hc. simpl. split.
    - right. eexists. split; reflexivity.
    - rewrite Hld. simpl. rewrite Hl. discriminate. }
  destruct (String.eqb (Room.status newRoom) "waiting"); exact Hgoal.
Qed.

Lemma fire_owned (h : nat) (s : Client) :
  timer_owned s -> timer_owned (fire h s).
Proof.
  intros Hown. unfold fire.
  destruct (find _ (timers s)) as [t|] eqn:Hf; [|exact Hown].
  apply find_handle in Hf. destruct Hf as [Hin Hh].
  destruct Hown as [[Hn|(t0 & Ht0 & Hi)] Hld].
  - rewrite Hn in Hin. destruct Hin.
  - rewrite Ht0 in Hin. destruct Hin as [<-|[]].
    destruct (callback t0) as [ph]. unfold timer_owned. simpl.
    rewrite Ht0. simpl. rewrite Hh, Nat.eqb_refl. simpl.
    split; [now left|]. intros Hl. apply Hld in Hl.
    destruct Hl as [Hl _]. rewrite Ht0 in Hl. discriminate.
Qed.

Lemma handle_event_owned (p : Props) (e : Event) (s : Client) :
  timer_owned s -> timer_owned (handle_event p e s).
Proof.
  intros Hown. destruct e as [res|ids|newRoom|err|h|]; simpl.
  - destruct (loading s) eqn:Hl; [|exact Hown].
    apply init_resume_owned. now apply (proj2 Hown).
  - destruct (channel s) as [c|] eqn:Hc; [|exact Hown].
    destruct (on_presence_sync_frame p ids s)
      as (_ & Ht & Hi & Hl & Hch & _).
    unfold timer_owned. rewrite Ht, Hi, Hl, Hch. exact Hown.
  - destruct (channel s) as [c|] eqn:Hc; [|exact Hown].
    apply on_room_update_owned; [|exact Hown].
    destruct (loading s) eqn:Hl; [|reflexivity].
    destruct (proj2 Hown Hl) as [_ Hn]. congruence.
  - destruct (outbox s); [exact Hown|].
    destruct err; exact Hown.
  - now apply fire_owned.
  - exact Hown.
Qed.

Lemma reachable_owned (p : Props) (s : Client) :
  reachable p s -> timer_owned s.
Proof.
  apply (reachable_invariant p timer_owned).
  - unfold timer_owned. simpl. split; [now left|auto].
  - intros e s0. apply handle_event_owned.
Qed.

(** C7. At every point of a run at most one intro timer is pending. *)
Theorem at_most_one_timer (p : Props) (evs : list Event) :
  (length (timers (run p evs (mount p))) <= 1)%nat.
Proof.
  assert (H : timer_owned (run p evs (mount p)))
    by (apply (reachable_owned p); now exists evs).
  destruct H as [[H|(t & H & _)] _]; rewrite H; simpl; lia.
Qed.

(** ** The phase controller *)


(** A [waiting] notification sets the phase and touches neither the timer
    queue nor [introTimeout]. *)
Lemma on_room_update_waiting (newRoom : Room.t) (s : Client) :
  Room.status newRoom = "waiting" ->
  phase (on_room_update newRoom s) = waiting /\
  timers (on_room_update newRoom s) = timers s /\
  introTimeout (on_room_update newRoom s) = introTimeout s.
Proof.
  intros Hw. unfold on_room_update. rewrite Hw. simpl. auto.
Qed.




(** C4. Loading a room whose stored status is already [started] sets the
    phase to [intro], never to [rules], and schedules the 5000 ms timer
    whose firing sets the phase to [rules]; nothing else of the record is
    consulted. *)
Theorem load_started_enters_intro (p : Props) (data : Room.t) :
  roomId p <> "" ->
  Room.status data = "started" ->
  let s := handle_event p (InitResult (inl data)) (mount p) in
  phase s = intro /\ phase s <> rules /\
  timers s = [mkTimer 1 5000 (SetPhase rules)] /\
  introTimeout s = Some 1%nat /\
  phase (handle_event p (TimerFires 1) s) = rules.
Proof.
  intros Hid Hst. simpl.
  apply String.eqb_neq in Hid. rewrite Hid. simpl.
  unfold init_resume. rewrite Hst. simpl.
  repeat split; try reflexivity. discriminate.
Qed.

Lemma load_started_enters_intro_witness :
  phase (handle_event client_aaa (InitResult (inl (room_r1 "started")))
           (mount client_aaa)) = intro.
Proof.
  apply (load_started_enters_intro client_aaa (room_r1 "started")
           ltac:(discriminate) eq_refl).
Defined.

(** C2 (what the code does). After a [started] notification has put the
    client in [intro] with its timer pending, a [waiting] notification
    sets the phase to [waiting] but leaves the timer in the queue; when
    it fires, the phase becomes [rules]. *)
Theorem reset_leaves_timer_pending :
  let s := handle_event client_aaa (RoomUpdate (room_r1 "waiting")) aaa_intro in
  phase aaa_intro = intro /\
  timers aaa_intro = [mkTimer 1 5000 (SetPhase rules)] /\
  phase s = waiting /\
  timers s = [mkTimer 1 5000 (SetPhase rules)] /\
  phase (handle_event client_aaa (TimerFires 1) s) = rules.
Proof. vm_compute. repeat split; reflexivity. Qed.

(** ** A failed load *)

Lemma handle_event_inert (p : Props) (e : Event) (s : Client) :
  inert s ->
  inert (handle_event p e s) /\ console (handle_event p e s) = console s.
Proof.
  intros (Hl & Hc & Ht & Hp & Ho & Hr).
  destruct e as [res|ids|newRoom|err|h|]; simpl.
  - rewrite Hl. unfold inert. auto 10.
  - rewrite Hc. unfold inert. auto 10.
  - rewrite Hc. unfold inert. auto 10.
  - rewrite Ho. unfold inert. auto 10.
  - unfold fire. rewrite Ht. simpl. unfold inert. auto 10.
  - unfold inert. simpl. auto 10.
Qed.

(** C8. When the point read fails, the error is logged once and the
    client stays as it is whatever happens next: phase [waiting], no
    timer, and no request to the store. *)
Theorem load_failure_inert (p : Props) (e : string) (evs : list Event) :
  roomId p <> "" ->
  let s := run p (InitResult (inr e) :: evs) (mount p) in
  phase s = waiting /\ phase s <> intro /\ phase s <> rules /\
  outbox s = [] /\ timers s = [] /\
  console s = [load_room_error e].
Proof.
  intros Hid. rewrite run_cons.
  assert (H0 : handle_event p (InitResult (inr e)) (mount p)
               = stopLoading (console_error (load_room_error e) (mount p))).
  { simpl. apply String.eqb_neq in Hid. now rewrite Hid. }
  rewrite H0.
  assert (H : inert (run p evs (stopLoading (console_error (load_room_error e) (mount p))))
              /\ console (run p evs (stopLoading (console_error (load_room_error e) (mount p))))
                 = [load_room_error e]).
  { apply (run_invariant p
             (fun s => inert s /\ console s = [load_room_error e])
             (fun _ => True)).
    - intros ev s _ [Hi Hc].
      destruct (handle_event_inert p ev s Hi) as [Hi' Hc'].
      split; [exact Hi' | congruence].
    - apply Forall_forall. auto.
    - unfold inert. simpl. auto 10. }
  destruct H as [(_ & _ & Ht & Hp & Ho & _) Hc]. simpl.
  rewrite Hp. repeat split; auto; discriminate.
Qed.

Lemma load_failure_inert_witness :
  phase (run client_aaa
           [InitResult (inr "not found"); PresenceSync ["aaa"; "bbb"];
            RoomUpdate (room_r1 "started"); Render; TimerFires 1]
           (mount client_aaa)) = waiting.
Proof.
  apply (load_failure_inert client_aaa "not found"
           [PresenceSync ["aaa"; "bbb"]; RoomUpdate (room_r1 "started");
            Render; TimerFires 1]
           ltac:(discriminate)).
Defined.

(** ** Below quorum *)

Lemma handle_event_lone (p : Props) (r : Room.t) (e : Event) (s : Client) :
  Room.required_players r = 2 ->
  lone_event e -> lone_state r s -> lone_state r (handle_event p e s).
Proof.
  intros Hreq He (Ho & Hp & Ht & Hl & Hr & Hrr).
  destruct e as [res|ids|newRoom|err|h|]; simpl in *.
  - rewrite Hl. unfold lone_state. auto 10.
  - destruct (channel s); [|unfold lone_state; auto 10].
    destruct (on_presence_sync_frame p ids s)
      as (Hp' & Ht' & _ & Hl' & _ & Hr' & Hrr' & _).
    unfold lone_state. rewrite Hp', Ht', Hl', Hr', Hrr'.
    repeat split; auto.
    destruct (on_presence_sync_cases p ids s) as [E|E];
      [rewrite E; exact Ho|].
    assert (Hne : outbox (on_presence_sync p ids s) <> outbox s).
    { rewrite E. simpl. rewrite Ho. simpl. intro X. discriminate X. }
    apply on_presence_sync_sends in Hne.
    destruct Hne as (r' & Hs & _ & Hn & _).
    apply Hrr in Hs. subst r'. lia.
  - contradiction.
  - rewrite Ho. unfold lone_state. auto 10.
  - unfold fire. rewrite Ht. simpl. unfold lone_state. auto 10.
  - unfold lone_state. simpl. auto 10.
Qed.

(** C5. A snapshot handled while the cached status is not [waiting], or
    smaller than [required_players], makes the client send nothing and
    leaves its phase alone; a client alone in a room that requires two
    players never sends the update and stays in phase [waiting]. *)
Theorem below_quorum_no_write :
  (forall (p : Props) (ids : list string) (s : Client),
      (forall r, roomRef s = Some r ->
                 Room.status r <> "waiting" \/
                 Z.of_nat (length ids) < Room.required_players r) ->
      outbox (on_presence_sync p ids s) = outbox s /\
      phase (on_presence_sync p ids s) = phase s) /\
  (forall (p : Props) (r : Room.t) (evs : list Event),
      Room.status r = "waiting" ->
      Room.required_players r = 2 ->
      Forall lone_event evs ->
      outbox (run p (InitResult (inl r) :: evs) (mount p)) = [] /\
      phase (run p (InitResult (inl r) :: evs) (mount p)) = waiting).
Proof.
  split.
  - intros p ids s H. split; [|apply on_presence_sync_frame].
    unfold on_presence_sync. simpl.
    destruct (roomRef s) as [r|]; [|reflexivity].
    destruct (H r eq_refl) as [Hs|Hn].
    + apply String.eqb_neq in Hs. rewrite Hs. reflexivity.
    + destruct (Z.geb_spec (Z.of_nat (length ids)) (Room.required_players r));
        [lia|]. now rewrite andb_false_r.
  - intros p r evs Hst Hreq Hev.
    assert (H : lone_state r (run p (InitResult (inl r) :: evs) (mount p))).
    { rewrite run_cons.
      apply (run_invariant p (lone_state r) lone_event); auto.
      - intros e s. now apply handle_event_lone.
      - unfold lone_state, handle_event, mount, init_resume. simpl.
        rewrite Hst.
        destruct (String.eqb (roomId p) ""); simpl;
          repeat split; auto; try (intros r' Hr'; congruence). }
    destruct H as (Ho & Hp & _). auto.
Qed.

Lemma below_quorum_no_write_witness :
  outbox (on_presence_sync client_aaa ["aaa"] aaa_waiting) = [] /\
  phase (run client_aaa
           [InitResult (inl (room_r1 "waiting")); Render;
            PresenceSync ["aaa"]; Render; PresenceSync ["aaa"]]
           (mount client_aaa)) = waiting.
Proof.
  destruct below_quorum_no_write as [Hhandler Hlone]. split.
  - apply (Hhandler client_aaa ["aaa"] aaa_waiting).
    intros r Hr. right. injection Hr as <-. vm_compute. reflexivity.
  - apply (Hlone client_aaa (room_r1 "waiting")
             [Render; PresenceSync ["aaa"]; Render; PresenceSync ["aaa"]]
             eq_refl eq_refl).
    repeat constructor.
Defined.

(** ** The request and the store *)

Lemma handle_event_outbox (p : Props) (e : Event) (s : Client) :
  outbox (handle_event p e s) = outbox s \/
  outbox (handle_event p e s) = (outbox s ++ [start_request p])%list.
Proof.
  destruct e as [res|ids|newRoom|err|h|]; simpl.
  - destruct (loading s); [|now left].
    left. unfold init_resume. destruct res as [data|e]; [|reflexivity].
    destruct (String.eqb (Room.status data) "started"); reflexivity.
  - destruct (channel s); [|now left].
    destruct (on_presence_sync_cases p ids s) as [H|H]; rewrite H; simpl; auto.
  - destruct (channel s); [|now left].
    left. unfold on_room_update.
    destruct (String.eqb (Room.status newRoom) "waiting");
      destruct (_ && _); simpl; try reflexivity;
      apply (clearIntroTimeout_frame (setPhase intro (setRoom (Some newRoom) s))).
  - left. destruct (outbox s) eqn:E; [exact E|]. destruct err; exact E.
  - left. unfold fire. destruct (find _ _) as [t|]; [|reflexivity].
    destruct (callback t). reflexivity.
  - now left.
Qed.

(** Whatever a client has sent is the request of lines 77-80. *)
Lemma outbox_only_start (p : Props) (evs : list Event) (q : UpdateReq) :
  In q (outbox (run p evs (mount p))) -> q = start_request p.
Proof.
  assert (H : forall s, reachable p s ->
                        forall q', In q' (outbox s) -> q' = start_request p).
  { apply (reachable_invariant p
             (fun s => forall q', In q' (outbox s) -> q' = start_request p)).
    - intros q' [].
    - intros e s IH q' Hq.
      destruct (handle_event_outbox p e s) as [E|E]; rewrite E in Hq.
      + now apply IH.
      + apply in_app_or in Hq. destruct Hq as [Hq|[<-|[]]]; auto. }
  apply H. now exists evs.
Qed.

Lemma update_row_start (p : Props) (r : Room.t) :
  update_row (start_request p) r =
  if String.eqb (Room.id r) (roomId p)
  then Room.mk (Room.id r) "started" (Room.required_players r)
         (Room.game_title r) (Room.suit r) (Room.game_name r) (Room.rules r)
  else r.
Proof.
  unfold update_row. simpl.
  destruct (String.eqb (Room.id r) (roomId p)); reflexivity.
Qed.

Lemma update_row_status_only (p : Props) (r : Room.t) :
  status_only p r (update_row (start_request p) r).
Proof.
  rewrite update_row_start. unfold status_only.
  destruct (String.eqb_spec (Room.id r) (roomId p)) as [E|E]; simpl;
    repeat split; auto; intros; congruence.
Qed.

Lemma update_row_status_step (p : Props) (r : Room.t) :
  status_step r (update_row (start_request p) r).
Proof.
  rewrite update_row_start. unfold status_step.
  destruct (String.eqb (Room.id r) (roomId p)); simpl; auto.
Qed.

Lemma Forall2_map_self {A : Type} (R : A -> A -> Prop) (f : A -> A) (l : list A) :
  (forall a, R a (f a)) -> Forall2 R l (map f l).
Proof. intros H. induction l; simpl; constructor; auto. Qed.

Lemma Forall2_chain {A : Type} (R : A -> A -> Prop) :
  (forall a b c, R a b -> R b c -> R a c) ->
  forall l1 l2 l3, Forall2 R l1 l2 -> Forall2 R l2 l3 -> Forall2 R l1 l3.
Proof.
  intros Htr l1 l2 l3 H12. revert l3.
  induction H12; intros l3 H23; inversion H23; subst; constructor; eauto.
Qed.

Lemma status_step_trans (a b c : Room.t) :
  status_step a b -> status_step b c -> status_step a c.
Proof. unfold status_step. intros [H1|H1] [H2|H2]; rewrite ?H2, ?H1; auto. Qed.

Lemma status_step_refl (l : list Room.t) : Forall2 status_step l l.
Proof. induction l; constructor; auto. now left. Qed.

(** C9. A request sent by the elector names table [rooms], sets the one
    column [status] and filters on [id = roomId] alone; applied to the
    table it leaves every other column of every row, and every row of
    another room, as it was, and it sets the status of room [roomId]
    whatever that status was. *)
Theorem start_request_frame (p : Props) (evs : list Event) (q : UpdateReq)
    (rows : list Room.t) :
  In q (outbox (run p evs (mount p))) ->
  upd_table q = "rooms" /\
  upd_fields q = [("status", VText "started")] /\
  upd_eq q = [("id", VText (roomId p))] /\
  Forall2 (status_only p) rows (update_room q rows).
Proof.
  intros Hq. apply outbox_only_start in Hq. subst q.
  repeat split. unfold update_room. simpl.
  apply Forall2_map_self. apply update_row_status_only.
Qed.

(** C6. Every request the elector issues sets [status] to [started] and
    nothing else, so requests of electors alone move the status of a row
    to [started] or leave it: a row that is [started] stays [started]. *)
Theorem elector_only_starts (qs : list UpdateReq) (rows : list Room.t) :
  Forall elector_issued qs ->
  (forall q, In q qs -> upd_fields q = [("status", VText "started")]) /\
  Forall2 status_step rows (update_all qs rows) /\
  Forall2 (fun r r' => Room.status r = "started" -> Room.status r' = "started")
    rows (update_all qs rows).
Proof.
  intros Hqs.
  assert (Hstart : forall q, In q qs -> exists p, q = start_request p).
  { intros q Hq. rewrite Forall_forall in Hqs.
    destruct (Hqs q Hq) as (p & evs & Hin).
    exists p. now apply outbox_only_start in Hin. }
  assert (Hstep : Forall2 status_step rows (update_all qs rows)).
  { clear Hqs. revert rows.
    induction qs as [|q qs IH]; intros rows; simpl.
    - apply status_step_refl.
    - apply Forall2_chain with (l2 := update_room q rows).
      + exact status_step_trans.
      + destruct (Hstart q (or_introl eq_refl)) as [p ->].
        unfold update_room. simpl.
        apply Forall2_map_self. apply update_row_status_step.
      + apply IH. intros q' Hq'. apply Hstart. now right. }
  repeat split.
  - intros q Hq. destruct (Hstart q Hq) as [p ->]. reflexivity.
  - exact Hstep.
  - eapply Forall2_impl; [|exact Hstep].
    intros r r' [H|H] Hs; congruence.
Qed.

Lemma aaa_elected_sends :
  In (start_request client_aaa) (outbox (run client_aaa aaa_elected (mount client_aaa))).
Proof. left. reflexivity. Defined.

Lemma start_request_frame_witness :
  upd_eq (start_request client_aaa) = [("id", VText "r1")] /\
  Forall2 (status_only client_aaa) two_rooms
    (update_room (start_request client_aaa) two_rooms).
Proof.
  destruct (start_request_frame client_aaa aaa_elected
              (start_request client_aaa) two_rooms aaa_elected_sends)
    as (_ & _ & Hf & Hr).
  split; [exact Hf | exact Hr].
Defined.

Lemma elector_only_starts_witness :
  Forall2 status_step two_rooms
    (update_all [start_request client_aaa; start_request client_aaa] two_rooms).
Proof.
  assert (He : elector_issued (start_request client_aaa)).
  { exists client_aaa, aaa_elected. exact aaa_elected_sends. }
  apply (elector_only_starts
           [start_request client_aaa; start_request client_aaa] two_rooms).
  repeat constructor; exact He.
Defined.

(** ** Teardown and small checks *)

(** The cleanup of the effect cancels the pending timer and drops the
    channel. *)
Lemma cleanup_cancels (p : Props) (s : Client) :
  reachable p s -> timers (cleanup s) = [] /\ channel (cleanup s) = None.
Proof.
  intros Hr. apply reachable_owned in Hr.
  unfold cleanup. simpl. split; [|reflexivity].
  now apply clearIntroTimeout_owned.
Qed.

Example sort_three : sort ["bbb"; "aaa"; "ab"] = ["aaa"; "ab"; "bbb"].
Proof. reflexivity. Qed.

Example leader_of_empty : is_leader client_aaa [] = false.
Proof. reflexivity. Qed.

(** Both clients see the same snapshot; only [aaa] sends, and the change
    notification then puts both in [intro]. *)
Example two_clients_start :
  outbox (run client_aaa aaa_elected (mount client_aaa)) = [start_request client_aaa] /\
  outbox (on_presence_sync client_bbb ["bbb"; "aaa"] bbb_waiting) = [] /\
  phase (on_room_update (room_r1 "started") aaa_waiting) = intro /\
  phase (on_room_update (room_r1 "started") bbb_waiting) = intro.
Proof. repeat split; reflexivity. Qed.

(** The update sent twice leaves the table as after the first time. *)
Example update_twice :
  update_all [start_request client_aaa; start_request client_bbb] two_rooms
  = update_all [start_request client_aaa] two_rooms.
Proof. reflexivity. Qed.

(** * Further properties of the component *)

(** ** The shape of each step *)

Lemma clearIntroTimeout_fields (s : Client) :
  timer_owned s ->
  clearIntroTimeout s =
  mkClient (room s) (phase s) (playersCount s) (roomRef s) (phaseRef s)
    (introTimeout s) (channel s) (loading s) [] (nextHandle s)
    (outbox s) (console s).
Proof.
  intros [[H|(t & Ht & Hi)] _]; unfold clearIntroTimeout.
  - destruct s as [a b c d e [h|] g i j k l m]; simpl in *; subst;
      reflexivity.
  - destruct s as [a b c d e f g i j k l m]; simpl in *; subst.
    unfold clearTimeout. simpl. now rewrite Nat.eqb_refl.
Qed.

Lemma on_room_update_shape (newRoom : Room.t) (s : Client) :
  timer_owned s ->
  room (on_room_update newRoom s) = Some newRoom /\
  roomRef (on_room_update newRoom s) = roomRef s /\
  phaseRef (on_room_update newRoom s) = phaseRef s /\
  playersCount (on_room_update newRoom s) = playersCount s /\
  channel (on_room_update newRoom s) = channel s /\
  loading (on_room_update newRoom s) = loading s /\
  outbox (on_room_update newRoom s) = outbox s /\
  console (on_room_update newRoom s) = console s /\
  ((Room.status newRoom = "started" /\ phaseRef s = waiting /\
    phase (on_room_update newRoom s) = intro /\
    timers (on_room_update newRoom s)
      = [mkTimer (nextHandle s) 5000 (SetPhase rules)] /\
    introTimeout (on_room_update newRoom s) = Some (nextHandle s) /\
    nextHandle (on_room_update newRoom s) = S (nextHandle s))
   \/
   ((Room.status newRoom <> "started" \/ phaseRef s <> waiting) /\
    phase (on_room_update newRoom s)
      = (if String.eqb (Room.status newRoom) "waiting" then waiting else phase s) /\
    timers (on_room_update newRoom s) = timers s /\
    introTimeout (on_room_update newRoom s) = introTimeout s /\
    nextHandle (on_room_update newRoom s) = nextHandle s)).
Proof.
  intros Hown. unfold on_room_update.
  assert (Hown1 : timer_owned (setPhase intro (setRoom (Some newRoom) s)))
    by exact Hown.
  rewrite (clearIntroTimeout_fields _ Hown1).
  destruct (String.eqb_spec (Room.status newRoom) "started") as [Hs|Hs].
  - rewrite Hs. simpl. destruct (phaseRef s) eqn:Hp; simpl.
    + repeat (split; [first [reflexivity | assumption]|]). left. repeat split; reflexivity.
    + repeat (split; [first [reflexivity | assumption]|]). right.
      repeat split; try reflexivity. right. discriminate.
    + repeat (split; [first [reflexivity | assumption]|]). right.
      repeat split; try reflexivity. right. discriminate.
  - simpl. destruct (String.eqb (Room.status newRoom) "waiting"); simpl;
      repeat (split; [first [reflexivity | assumption]|]); right;
      repeat split; try reflexivity; now left.
Qed.

Lemma fire_shape (h : nat) (s : Client) :
  timer_owned s -> timers_ok s ->
  fire h s = s \/
  exists t, timers s = [t] /\ handle t = h /\
            fire h s = setPhase rules (clearTimeout h s) /\
            timers (fire h s) = [].
Proof.
  intros Hown (_ & Hok & _). unfold fire.
  destruct (find _ (timers s)) as [t|] eqn:Hf; [right|now left].
  apply find_handle in Hf. destruct Hf as [Hin Hh].
  destruct Hown as [[Hn|(t0 & Ht0 & _)] _].
  - rewrite Hn in Hin. destruct Hin.
  - rewrite Ht0 in Hin. destruct Hin as [<-|[]].
    exists t0. destruct (Hok t0) as (_ & Hcb & _); [rewrite Ht0; now left|].
    rewrite Hcb. simpl. repeat split; auto.
    rewrite Ht0. simpl. now rewrite Hh, Nat.eqb_refl.
Qed.

Lemma init_resume_shape (p : Props) (res : Room.t + string) (s : Client) :
  init_resume p res s =
  match res with
  | inr e =>
      mkClient (room s) (phase s) (playersCount s) (roomRef s) (phaseRef s)
        (introTimeout s) (channel s) false (timers s) (nextHandle s)
        (outbox s) (console s ++ [load_room_error e])
  | inl data =>
      if String.eqb (Room.status data) "started"
      then mkClient (Some data) intro (playersCount s) (roomRef s) (phaseRef s)
             (Some (nextHandle s))
             (Some (mkChannel ("room-" ++ roomId p) (clientId p))) false
             (timers s ++ [mkTimer (nextHandle s) 5000 (SetPhase rules)])
             (S (nextHandle s)) (outbox s) (console s)
      else mkClient (Some data) (phase s) (playersCount s) (roomRef s) (phaseRef s)
             (introTimeout s)
             (Some (mkChannel ("room-" ++ roomId p) (clientId p))) false
             (timers s) (nextHandle s) (outbox s) (console s)
  end.
Proof.
  unfold init_resume. destruct res as [data|e]; [|reflexivity].
  destruct (String.eqb (Room.status data) "started"); reflexivity.
Qed.

(** ** The invariant of a run *)

Ltac close_inv :=
  repeat split; intros;
  repeat match goal with
         | H : In _ [] |- _ => destruct H
         | H : In _ [_] |- _ => destruct H as [<-|H]
         | H : Some _ = Some _ |- _ => injection H as <-
         | H : _ \/ _ |- _ => destruct H
         end;
  subst; simpl in *; try contradiction; try lia; try congruence;
  try discriminate.

Lemma mount_inv (p : Props) : run_inv p (mount p).
Proof.
  unfold run_inv, timer_owned, timers_ok, phase_timer, room_known, channel_ok.
  simpl. split; [split; [now left|auto]|]. close_inv.
Qed.

Lemma init_resume_inv (p : Props) (res : Room.t + string) (s : Client) :
  loading s = true -> run_inv p s -> run_inv p (init_resume p res s).
Proof.
  intros Hl (Hown & (Hn & _ & _) & _ & (_ & Hld) & _).
  destruct (proj2 Hown Hl) as [Ht Hc]. destruct (Hld Hl) as [Hp Hi].
  split; [now apply init_resume_owned|].
  rewrite init_resume_shape.
  unfold timers_ok, phase_timer, room_known, channel_ok.
  destruct res as [data|e];
    [destruct (String.eqb (Room.status data) "started")|]; simpl;
    rewrite ?Ht, ?Hp, ?Hi, ?Hc; simpl.
  - split; [|split; [|split]].
    + close_inv.
    + split; [|discriminate]. intros _. eexists. split; reflexivity.
    + close_inv.
    + close_inv.
  - close_inv.
  - close_inv.
Qed.

Lemma on_room_update_inv (p : Props) (newRoom : Room.t) (s : Client) :
  loading s = false -> run_inv p s -> run_inv p (on_room_update newRoom s).
Proof.
  intros Hl (Hown & (Hn & Hts & Hin) & (Hpi & Hpr) & (Hrk & Hld) & Hch).
  split; [now apply on_room_update_owned|].
  destruct (on_room_update_shape newRoom s Hown)
    as (Er & _ & _ & _ & Ec & El & _ & _ & Hcase).
  unfold timers_ok, phase_timer, room_known, channel_ok.
  rewrite Er, Ec, El, Hl.
  destruct Hcase as [(_ & _ & Ep & Et & Ei & En)|(_ & Ep & Et & Ei & En)];
    rewrite Ep, Et, Ei, En.
  - split; [|split; [|split]].
    + close_inv.
    + split; [|discriminate]. intros _. eexists. split; reflexivity.
    + close_inv.
    + intros c Hc. destruct (Hch c Hc) as (-> & _ & _). close_inv.
  - split; [|split; [|split]].
    + split; [exact Hn | split; [exact Hts | exact Hin]].
    + destruct (String.eqb (Room.status newRoom) "waiting");
        split; auto; discriminate.
    + close_inv.
    + intros c Hc. destruct (Hch c Hc) as (-> & _ & _). close_inv.
Qed.

Lemma fire_inv (p : Props) (h : nat) (s : Client) :
  run_inv p s -> run_inv p (fire h s).
Proof.
  intros Hinv.
  destruct Hinv as (Hown & Hok & Hpt & (Hrk & Hld) & Hch).
  destruct (fire_shape h s Hown Hok) as [E|(t & Ht & Hh & E & Et)].
  - rewrite E. exact (conj Hown (conj Hok (conj Hpt (conj (conj Hrk Hld) Hch)))).
  - split; [now apply fire_owned|].
    destruct Hok as (Hn & Hts & Hin).
    assert (Hroom : room s <> None)
      by (apply Hrk; right; rewrite Ht; discriminate).
    assert (Hload : loading s = false).
    { destruct (loading s) eqn:Hl; [|reflexivity].
      destruct (proj2 Hown Hl) as [Hnil _]. congruence. }
    unfold timers_ok, phase_timer, room_known, channel_ok.
    rewrite Et. rewrite E. simpl. rewrite Hload.
    split; [|split; [|split]].
    + split; [exact Hn | split; [intros t0 [] | exact Hin]].
    + close_inv.
    + close_inv.
    + intros c Hc. destruct (Hch c Hc) as (-> & _ & _). auto.
Qed.

Lemma handle_event_inv (p : Props) (e : Event) (s : Client) :
  run_inv p s -> run_inv p (handle_event p e s).
Proof.
  intros Hinv. destruct e as [res|ids|newRoom|err|h|]; simpl.
  - destruct (loading s) eqn:Hl; [|exact Hinv].
    now apply init_resume_inv.
  - destruct (channel s) as [c|]; [|exact Hinv].
    destruct (on_presence_sync_cases p ids s) as [H|H]; rewrite H;
      exact Hinv.
  - destruct (channel s) as [c|] eqn:Hc; [|exact Hinv].
    apply on_room_update_inv; [|exact Hinv].
    destruct Hinv as (_ & _ & _ & _ & Hch).
    now destruct (Hch c Hc) as (_ & Hl & _).
  - destruct (outbox s); [exact Hinv|]. destruct err; exact Hinv.
  - now apply fire_inv.
  - exact Hinv.
Qed.

Lemma reachable_inv (p : Props) (s : Client) : reachable p s -> run_inv p s.
Proof.
  apply (reachable_invariant p (run_inv p)).
  - apply mount_inv.
  - intros e s0. apply handle_event_inv.
Qed.

Lemma run_reachable (p : Props) (evs : list Event) (s : Client) :
  reachable p s -> reachable p (run p evs s).
Proof.
  intros [evs0 ->]. exists (evs0 ++ evs)%list. now rewrite run_app.
Qed.

(** ** More on the election *)

Lemma smallest_perm (c : string) (ids ids' : list string) :
  Permutation ids ids' -> smallest c ids -> smallest c ids'.
Proof.
  intros Hp [Hin Hle]. split.
  - eapply Permutation_in; eauto.
  - intros x Hx. apply Hle.
    eapply Permutation_in; [apply Permutation_sym|]; eauto.
Qed.

Lemma is_leader_perm (p : Props) (ids ids' : list string) :
  Permutation ids ids' -> is_leader p ids = is_leader p ids'.
Proof.
  intros Hp.
  destruct (is_leader p ids) eqn:E; destruct (is_leader p ids') eqn:E';
    try reflexivity.
  - apply is_leader_spec in E. apply (smallest_perm _ _ _ Hp) in E.
    apply is_leader_spec in E. congruence.
  - apply is_leader_spec in E'.
    apply (smallest_perm _ _ _ (Permutation_sym Hp)) in E'.
    apply is_leader_spec in E'. congruence.
Qed.

Lemma app_one_neq {A : Type} (l : list A) (x : A) : (l ++ [x])%list <> l.
Proof.
  intros H. apply (f_equal (@length A)) in H.
  rewrite length_app in H. simpl in H. lia.
Qed.

(** Past the three tests the handler is one [send]. *)
Lemma on_presence_sync_elected (p : Props) (ids : list string) (s : Client)
    (r : Room.t) :
  roomRef s = Some r -> Room.status r = "waiting" ->
  Room.required_players r <= Z.of_nat (length ids) ->
  smallest (clientId p) ids ->
  on_presence_sync p ids s
  = send (start_request p) (setPlayersCount (length ids) s).
Proof.
  intros Hr Hw Hn Hs. unfold on_presence_sync. simpl. rewrite Hr, Hw. simpl.
  destruct (Z.geb_spec (Z.of_nat (length ids)) (Room.required_players r));
    [|lia].
  apply is_leader_spec in Hs. now rewrite Hs.
Qed.

Lemma sent_cases (p : Props) (ids : list string) (s : Client) :
  sent p ids s = 0%nat \/
  (sent p ids s = 1%nat /\ smallest (clientId p) ids).
Proof.
  unfold sent.
  destruct (on_presence_sync_cases p ids s) as [H|H].
  - left. rewrite H. simpl. lia.
  - right. split.
    + rewrite H. simpl. rewrite length_app. simpl. lia.
    + assert (Hne : outbox (on_presence_sync p ids s) <> outbox s)
        by (rewrite H; simpl; apply app_one_neq).
      apply on_presence_sync_sends in Hne.
      now destruct Hne as (r & _ & _ & _ & Hs).
Qed.

(** X1. The handler's result does not depend on the order in which
    [Object.keys] lists the identities of the snapshot. *)
Theorem snapshot_order_irrelevant (p : Props) (ids ids' : list string)
    (s : Client) :
  Permutation ids ids' ->
  on_presence_sync p ids s = on_presence_sync p ids' s.
Proof.
  intros Hp. unfold on_presence_sync.
  rewrite (Permutation_length Hp), (is_leader_perm p ids ids' Hp).
  reflexivity.
Qed.

Lemma snapshot_order_irrelevant_witness :
  on_presence_sync client_aaa ["bbb"; "aaa"] aaa_waiting
  = on_presence_sync client_aaa ["aaa"; "bbb"] aaa_waiting.
Proof.
  apply (snapshot_order_irrelevant client_aaa ["bbb"; "aaa"] ["aaa"; "bbb"]).
  apply perm_swap.
Defined.

(** X2. A client whose own identity is not in the snapshot never sends
    the update, whatever the cached record and the snapshot size; in
    particular nobody is elected on an empty snapshot. *)
Theorem absent_client_never_sends (p : Props) (ids : list string) (s : Client) :
  ~ In (clientId p) ids ->
  outbox (on_presence_sync p ids s) = outbox s /\
  is_leader p ids = false.
Proof.
  intros Hnot.
  assert (Hl : is_leader p ids = false).
  { apply is_leader_false. intros [Hin _]. contradiction. }
  split; [|exact Hl].
  destruct (on_presence_sync_cases p ids s) as [H|H]; [now rewrite H|].
  assert (Hne : outbox (on_presence_sync p ids s) <> outbox s)
    by (rewrite H; simpl; apply app_one_neq).
  apply on_presence_sync_sends in Hne.
  destruct Hne as (r & _ & _ & _ & [Hin _]). contradiction.
Qed.

Lemma absent_client_never_sends_witness :
  outbox (on_presence_sync client_aaa ["bbb"; "ccc"] aaa_waiting) = [].
Proof.
  apply (absent_client_never_sends client_aaa ["bbb"; "ccc"] aaa_waiting).
  simpl. intros [H|[H|[]]]; discriminate H.
Defined.

(** X3. On a non-empty snapshot exactly one identity passes the leader
    test, and it is a member of the snapshot. *)
Theorem nonempty_snapshot_has_leader (ids : list string) :
  ids <> [] ->
  exists c, In c ids /\
            forall p, is_leader p ids = true <-> clientId p = c.
Proof.
  intros Hne. destruct (sort ids) as [|m rest] eqn:Hs.
  - apply sort_nil_inv in Hs. contradiction.
  - pose proof (sort_head_smallest _ _ _ Hs) as Hm.
    exists m. split; [apply Hm|].
    intros p. rewrite is_leader_spec. split.
    + intros Hp. eapply smallest_unique; eauto.
    + intros ->. exact Hm.
Qed.

Lemma nonempty_snapshot_has_leader_witness :
  exists c, In c ["bbb"; "aaa"] /\
            forall p, is_leader p ["bbb"; "aaa"] = true <-> clientId p = c.
Proof.
  apply (nonempty_snapshot_has_leader ["bbb"; "aaa"]). discriminate.
Defined.

Lemma total_sent_none (ids : list string) (cs : list (Props * Client)) :
  (forall c, In c cs -> ~ smallest (clientId (fst c)) ids) ->
  total_sent ids cs = 0%nat.
Proof.
  induction cs as [|c cs IH]; intros H; [reflexivity|].
  unfold total_sent in *. simpl.
  destruct (sent_cases (fst c) ids (snd c)) as [E|[_ Hs]].
  - rewrite E. apply IH. intros c' Hc'. apply H. now right.
  - exfalso. apply (H c); [now left|exact Hs].
Qed.

(** X4. Among clients with pairwise different identities that handle the
    same snapshot, at most one request is sent in total; exactly one is
    sent when the client with the smallest identity is among them and
    has a [waiting] record cached with the quorum reached. *)
Theorem one_writer_per_snapshot (ids : list string) (cs : list (Props * Client)) :
  NoDup (map (fun c => clientId (fst c)) cs) ->
  (total_sent ids cs <= 1)%nat /\
  ((exists c r, In c cs /\ smallest (clientId (fst c)) ids /\
                roomRef (snd c) = Some r /\ Room.status r = "waiting" /\
                Room.required_players r <= Z.of_nat (length ids)) ->
   total_sent ids cs = 1%nat).
Proof.
  induction cs as [|c cs IH]; intros Hnd.
  - split; [unfold total_sent; simpl; lia|]. intros (c & r & [] & _).
  - simpl in Hnd. inversion Hnd as [|? ? Hnotin Hnd']; subst.
    destruct (IH Hnd') as [IHle IHone].
    assert (Hothers : smallest (clientId (fst c)) ids ->
                      total_sent ids cs = 0%nat).
    { intros Hs. apply total_sent_none. intros c' Hc' Hs'.
      apply Hnotin. apply in_map_iff. exists c'. split; [|exact Hc'].
      eapply smallest_unique; eauto. }
    unfold total_sent in *. simpl. split.
    + destruct (sent_cases (fst c) ids (snd c)) as [E|[E Hs]]; rewrite E.
      * exact IHle.
      * rewrite (Hothers Hs). lia.
    + intros (c' & r & [<-|Hin] & Hs & Hr & Hw & Hq).
      * rewrite (Hothers Hs). unfold sent.
        rewrite (on_presence_sync_elected _ _ _ r Hr Hw Hq Hs). simpl.
        rewrite length_app. simpl. lia.
      * destruct (sent_cases (fst c) ids (snd c)) as [E|[_ Hs0]].
        -- rewrite E. apply IHone. exists c', r. auto.
        -- exfalso. apply Hnotin. apply in_map_iff. exists c'.
           split; [|exact Hin]. eapply smallest_unique; eauto.
Qed.

Lemma one_writer_per_snapshot_witness :
  total_sent ["bbb"; "aaa"]
    [(client_bbb, bbb_waiting); (client_aaa, aaa_waiting)] = 1%nat.
Proof.
  assert (Hnd : NoDup (map (fun c : Props * Client => clientId (fst c))
                         [(client_bbb, bbb_waiting); (client_aaa, aaa_waiting)])).
  { simpl. constructor.
    - intros [H|[]]. discriminate H.
    - constructor; [intros []|constructor]. }
  apply (proj2 (one_writer_per_snapshot ["bbb"; "aaa"]
                  [(client_bbb, bbb_waiting); (client_aaa, aaa_waiting)] Hnd)).
  exists (client_aaa, aaa_waiting), (room_r1 "waiting").
  split; [right; left; reflexivity|].
  split; [exact smallest_aaa|].
  repeat split. vm_compute. discriminate.
Defined.

(** X5. The elected client keeps no memory of having sent: as long as
    its cached record says [waiting], every further sync with a quorum
    sends the request again. *)
Theorem resend_on_every_sync (p : Props) (ids : list string) (s : Client)
    (r : Room.t) (k : nat) :
  channel s <> None ->
  roomRef s = Some r -> Room.status r = "waiting" ->
  Room.required_players r <= Z.of_nat (length ids) ->
  smallest (clientId p) ids ->
  outbox (run p (repeat (PresenceSync ids) k) s)
  = (outbox s ++ repeat (start_request p) k)%list.
Proof.
  intros Hc Hr Hw Hq Hs. revert s Hc Hr.
  induction k as [|k IH]; intros s Hc Hr; simpl.
  - now rewrite app_nil_r.
  - destruct (channel s) as [c|] eqn:Ec; [|contradiction].
    rewrite (on_presence_sync_elected p ids s r Hr Hw Hq Hs).
    fold (run p (repeat (PresenceSync ids) k)
            (send (start_request p) (setPlayersCount (length ids) s))).
    rewrite IH.
    + simpl. now rewrite <- app_assoc.
    + simpl. rewrite Ec. discriminate.
    + exact Hr.
Qed.

Lemma resend_on_every_sync_witness :
  outbox (run client_aaa (repeat (PresenceSync ["bbb"; "aaa"]) 3) aaa_waiting)
  = repeat (start_request client_aaa) 3.
Proof.
  apply (resend_on_every_sync client_aaa ["bbb"; "aaa"] aaa_waiting
           (room_r1 "waiting") 3).
  - discriminate.
  - reflexivity.
  - reflexivity.
  - vm_compute. discriminate.
  - exact smallest_aaa.
Defined.

Lemma handle_event_room (p : Props) (e : Event) (s : Client) :
  no_record e -> room (handle_event p e s) = room s.
Proof.
  destruct e as [res|ids|newRoom|err|h|]; simpl; intros He;
    try contradiction.
  - destruct (channel s); [|reflexivity]. apply on_presence_sync_frame.
  - destruct (outbox s); [reflexivity|]. destruct err; reflexivity.
  - unfold fire. destruct (find _ _) as [t|]; [|reflexivity].
    destruct (callback t). reflexivity.
  - reflexivity.
Qed.

(** X6. Once the cached record (state and ref) has a status other than
    [waiting], no sequence of syncs, renders, timer firings and update
    answers makes the client send anything, until a new record arrives. *)
Theorem silent_once_started (p : Props) (r : Room.t) (evs : list Event)
    (s : Client) :
  room s = Some r -> roomRef s = Some r -> Room.status r <> "waiting" ->
  Forall no_record evs ->
  outbox (run p evs s) = outbox s.
Proof.
  intros Hroom Href Hst Hev.
  assert (H : room (run p evs s) = Some r /\ roomRef (run p evs s) = Some r /\
              outbox (run p evs s) = outbox s).
  { apply (run_invariant p
             (fun s' => room s' = Some r /\ roomRef s' = Some r /\
                        outbox s' = outbox s) no_record); auto.
    intros e s' He (Hr1 & Hr2 & Ho).
    split; [rewrite handle_event_room; auto|].
    destruct e as [res|ids|newRoom|err|h|]; simpl in *; try contradiction.
    - destruct (channel s'); [|auto].
      split; [rewrite <- Hr2; apply on_presence_sync_frame|].
      rewrite <- Ho. unfold on_presence_sync. simpl. rewrite Hr2.
      apply String.eqb_neq in Hst. now rewrite Hst.
    - destruct (outbox s') eqn:E; [split; congruence|].
      destruct err; simpl; split; congruence.
    - unfold fire. destruct (find _ _) as [t|]; [|auto].
      destruct (callback t). auto.
    - auto. }
  apply H.
Qed.

Lemma silent_once_started_witness :
  outbox (run client_aaa
            [PresenceSync ["bbb"; "aaa"]; TimerFires 1; PresenceSync ["aaa"; "bbb"]]
            aaa_intro) = [].
Proof.
  apply (silent_once_started client_aaa (room_r1 "started")
           [PresenceSync ["bbb"; "aaa"]; TimerFires 1; PresenceSync ["aaa"; "bbb"]]
           aaa_intro eq_refl eq_refl).
  - discriminate.
  - repeat constructor.
Defined.

(** ** More on the phase controller and its timer *)

Lemma reachable_aaa_waiting : reachable client_aaa aaa_waiting.
Proof.
  exists [InitResult (inl (room_r1 "waiting")); Render]. reflexivity.
Defined.

Lemma reachable_aaa_intro : reachable client_aaa aaa_intro.
Proof.
  exists [InitResult (inl (room_r1 "waiting")); Render;
          RoomUpdate (room_r1 "started"); Render]. reflexivity.
Defined.

Lemma reachable_aaa_rules : reachable client_aaa aaa_rules.
Proof.
  exists [InitResult (inl (room_r1 "waiting")); Render;
          RoomUpdate (room_r1 "started"); Render; TimerFires 1; Render].
  reflexivity.
Defined.

Lemma reachable_aaa_stale : reachable client_aaa aaa_stale.
Proof.
  exists [InitResult (inl (room_r1 "waiting")); Render;
          RoomUpdate (room_r1 "started")]. reflexivity.
Defined.

Lemma intro_timer (p : Props) (s : Client) :
  reachable p s -> phase s = intro ->
  exists h, introTimeout s = Some h /\
            timers s = [mkTimer h 5000 (SetPhase rules)].
Proof.
  intros Hr Hp. apply reachable_inv in Hr.
  destruct Hr as (_ & (_ & Hts & _) & (Hpi & _) & _).
  destruct (Hpi Hp) as (t & Ht & Hi).
  destruct (Hts t) as (Hd & Hc & _); [rewrite Ht; now left|].
  exists (handle t). split; [exact Hi|].
  rewrite Ht. destruct t as [h d c]. simpl in *. now subst.
Qed.

(** X7. A client in phase [intro] always has its 5000 ms timer pending
    under the handle kept in [introTimeout]; when that timer fires the
    phase is [rules] and no timer is left. *)
Theorem intro_ends_in_rules (p : Props) (s : Client) :
  reachable p s -> phase s = intro ->
  exists h, introTimeout s = Some h /\
            timers s = [mkTimer h 5000 (SetPhase rules)] /\
            phase (fire h s) = rules /\ timers (fire h s) = [].
Proof.
  intros Hr Hp. destruct (intro_timer p s Hr Hp) as (h & Hi & Ht).
  exists h. repeat split; auto; unfold fire; rewrite Ht; simpl;
    rewrite Nat.eqb_refl; simpl; try reflexivity.
  rewrite Ht. simpl. now rewrite Nat.eqb_refl.
Qed.

Lemma intro_ends_in_rules_witness :
  exists h, introTimeout aaa_intro = Some h /\
            timers aaa_intro = [mkTimer h 5000 (SetPhase rules)] /\
            phase (fire h aaa_intro) = rules /\ timers (fire h aaa_intro) = [].
Proof.
  apply (intro_ends_in_rules client_aaa aaa_intro reachable_aaa_intro).
  reflexivity.
Defined.

(** X8. In phase [rules] no timer is pending, and no event other than a
    change notification moves the client out of [rules]. *)
Theorem rules_is_stable (p : Props) (s : Client) (e : Event) :
  reachable p s -> phase s = rules ->
  (forall r, e <> RoomUpdate r) ->
  timers s = [] /\
  phase (handle_event p e s) = rules /\ timers (handle_event p e s) = [].
Proof.
  intros Hr Hp He. apply reachable_inv in Hr.
  destruct Hr as (_ & _ & (_ & Hpr) & (_ & Hld) & _).
  pose proof (Hpr Hp) as Ht. split; [exact Ht|].
  destruct e as [res|ids|newRoom|err|h|]; simpl.
  - destruct (loading s) eqn:Hl; [|auto].
    destruct (Hld eq_refl) as [Hw _]. congruence.
  - destruct (channel s); [|auto].
    destruct (on_presence_sync_frame p ids s) as (E1 & E2 & _).
    rewrite E1, E2. auto.
  - exfalso. now apply (He newRoom).
  - destruct (outbox s); [auto|]. destruct err; auto.
  - unfold fire. rewrite Ht. simpl. auto.
  - auto.
Qed.

Lemma rules_is_stable_witness :
  phase (handle_event client_aaa (PresenceSync ["aaa"]) aaa_rules) = rules.
Proof.
  apply (rules_is_stable client_aaa aaa_rules (PresenceSync ["aaa"])
           reachable_aaa_rules eq_refl).
  intros r H. discriminate H.
Defined.

(** X9. Only a timer firing takes a client into [rules]: after any other
    event the phase is [rules] only if it was [rules] before. *)
Theorem rules_only_by_timer (p : Props) (e : Event) (s : Client) :
  no_timer e ->
  phase (handle_event p e s) = rules -> phase s = rules.
Proof.
  destruct e as [res|ids|newRoom|err|h|]; simpl; intros He;
    try contradiction.
  - destruct (loading s); [|auto]. rewrite init_resume_shape.
    destruct res as [data|x];
      [destruct (String.eqb (Room.status data) "started")|]; simpl;
      auto; discriminate.
  - destruct (channel s); [|auto].
    destruct (on_presence_sync_frame p ids s) as (E & _). now rewrite E.
  - destruct (channel s); [|auto]. unfold on_room_update.
    destruct (String.eqb (Room.status newRoom) "waiting");
      destruct (_ && _); simpl; auto; try discriminate.
    destruct (clearIntroTimeout_frame
                (setPhase intro (setRoom (Some newRoom) s))) as (E & _).
    rewrite E. simpl. discriminate.
  - destruct (outbox s); [auto|]. destruct err; auto.
  - auto.
Qed.

Lemma rules_only_by_timer_witness : phase aaa_rules = rules.
Proof.
  apply (rules_only_by_timer client_aaa Render aaa_rules I). reflexivity.
Defined.

(** X10. Every timer pending at any point of a run is the intro timer:
    5000 ms, callback [setPhase('rules')], a positive handle, and that
    handle is the one kept in [introTimeout]. *)
Theorem pending_timer_is_intro_timer (p : Props) (evs : list Event) (t : Timer) :
  In t (timers (run p evs (mount p))) ->
  delay t = 5000 /\ callback t = SetPhase rules /\ (1 <= handle t)%nat /\
  introTimeout (run p evs (mount p)) = Some (handle t).
Proof.
  intros Hin.
  assert (Hr : reachable p (run p evs (mount p))) by now exists evs.
  apply reachable_inv in Hr.
  destruct Hr as ((Hown & _) & (_ & Hts & _) & _).
  destruct (Hts t Hin) as (Hd & Hc & Hh & _).
  repeat split; auto.
  destruct Hown as [Hn|(t0 & Ht0 & Hi)].
  - rewrite Hn in Hin. destruct Hin.
  - rewrite Ht0 in Hin. destruct Hin as [<-|[]]. exact Hi.
Qed.

Lemma pending_timer_is_intro_timer_witness :
  delay (mkTimer 1 5000 (SetPhase rules)) = 5000 /\
  introTimeout aaa_intro = Some 1%nat.
Proof.
  destruct (pending_timer_is_intro_timer client_aaa
              [InitResult (inl (room_r1 "waiting")); Render;
               RoomUpdate (room_r1 "started"); Render]
              (mkTimer 1 5000 (SetPhase rules))
              (or_introl eq_refl)) as (Hd & _ & _ & Hi).
  split; [exact Hd | exact Hi].
Defined.

(** X11. A [started] notification is judged by [phaseRef.current], not by
    the phase last set: with the ref at [waiting] it sets [intro] and
    replaces any pending timer by a new one, with the ref at [intro] or
    [rules] it leaves phase and timer alone, whatever [phase] holds. *)
Theorem started_guard_reads_ref (p : Props) (s : Client) (newRoom : Room.t) :
  reachable p s ->
  Room.status newRoom = "started" ->
  (phaseRef s = waiting ->
     phase (on_room_update newRoom s) = intro /\
     timers (on_room_update newRoom s)
       = [mkTimer (nextHandle s) 5000 (SetPhase rules)] /\
     ~ In (nextHandle s) (map handle (timers s))) /\
  (phaseRef s <> waiting ->
     phase (on_room_update newRoom s) = phase s /\
     timers (on_room_update newRoom s) = timers s).
Proof.
  intros Hr Hst. apply reachable_inv in Hr.
  destruct Hr as (Hown & (_ & Hts & _) & _).
  destruct (on_room_update_shape newRoom s Hown)
    as (_ & _ & _ & _ & _ & _ & _ & _ & Hcase).
  split; intros Href.
  - destruct Hcase as [(_ & _ & Ep & Et & _)|([Hc|Hc] & _)];
      try contradiction.
    repeat split; auto. intros Hin. apply in_map_iff in Hin.
    destruct Hin as (t & Hh & Hin). destruct (Hts t Hin) as (_ & _ & Hb). lia.
  - destruct Hcase as [(_ & Hc & _)|(_ & Ep & Et & _)]; [contradiction|].
    rewrite Hst in Ep. simpl in Ep. auto.
Qed.

Lemma started_guard_reads_ref_witness :
  phase aaa_stale = intro /\
  timers aaa_stale = [mkTimer 1 5000 (SetPhase rules)] /\
  timers (on_room_update (room_r1 "started") aaa_stale)
    = [mkTimer 2 5000 (SetPhase rules)].
Proof.
  destruct (started_guard_reads_ref client_aaa aaa_stale (room_r1 "started")
              reachable_aaa_stale eq_refl) as [Hw _].
  destruct (Hw eq_refl) as (_ & Ht & _).
  split; [reflexivity | split; [reflexivity | exact Ht]].
Defined.

(** X12. A [waiting] notification received in [intro] sets the phase to
    [waiting] and leaves the intro timer pending; when the timer fires
    the phase is [rules] although no [started] notification came. *)
Theorem reset_during_intro_is_overridden (p : Props) (s : Client)
    (newRoom : Room.t) :
  reachable p s -> phase s = intro ->
  Room.status newRoom = "waiting" ->
  exists h,
    phase (on_room_update newRoom s) = waiting /\
    timers (on_room_update newRoom s) = [mkTimer h 5000 (SetPhase rules)] /\
    phase (fire h (on_room_update newRoom s)) = rules.
Proof.
  intros Hr Hp Hst. destruct (intro_timer p s Hr Hp) as (h & _ & Ht).
  exists h. unfold on_room_update. rewrite Hst. simpl.
  repeat split; auto. unfold fire. simpl. rewrite Ht. simpl.
  now rewrite Nat.eqb_refl.
Qed.

Lemma reset_during_intro_is_overridden_witness :
  exists h,
    phase (on_room_update (room_r1 "waiting") aaa_intro) = waiting /\
    timers (on_room_update (room_r1 "waiting") aaa_intro)
      = [mkTimer h 5000 (SetPhase rules)] /\
    phase (fire h (on_room_update (room_r1 "waiting") aaa_intro)) = rules.
Proof.
  apply (reset_during_intro_is_overridden client_aaa aaa_intro
           (room_r1 "waiting") reachable_aaa_intro eq_refl eq_refl).
Defined.

(** X13. A notification whose status is neither [started] nor [waiting]
    only replaces the cached record; once rendered, the elector stays
    silent on every snapshot. *)
Theorem other_status_only_cached (p : Props) (newRoom : Room.t) (s : Client)
    (ids : list string) :
  Room.status newRoom <> "started" -> Room.status newRoom <> "waiting" ->
  on_room_update newRoom s = setRoom (Some newRoom) s /\
  outbox (on_presence_sync p ids (render (on_room_update newRoom s)))
  = outbox s.
Proof.
  intros Hs Hw.
  assert (E : on_room_update newRoom s = setRoom (Some newRoom) s).
  { unfold on_room_update. apply String.eqb_neq in Hs, Hw.
    rewrite Hs, Hw. reflexivity. }
  split; [exact E|]. rewrite E. unfold on_presence_sync. simpl.
  apply String.eqb_neq in Hw. now rewrite Hw.
Qed.

Lemma other_status_only_cached_witness :
  on_room_update (room_r1 "finished") aaa_intro
  = setRoom (Some (room_r1 "finished")) aaa_intro.
Proof.
  apply (other_status_only_cached client_aaa (room_r1 "finished") aaa_intro
           ["aaa"; "bbb"]); discriminate.
Defined.

(** ** What is shown *)

(** X14. At every point of a run the content box shows exactly one
    panel: the placeholder in [waiting], the intro card of the cached
    room in [intro], its rules in [rules]; the box is never empty. *)
Theorem content_shows_one_panel (p : Props) (s : Client) :
  reachable p s ->
  (phase s = waiting -> content s = [Placeholder]) /\
  (phase s = intro ->
     exists r, room s = Some r /\
       content s = [IntroCard (Room.game_title r) (Room.suit r) (Room.game_name r)]) /\
  (phase s = rules ->
     exists r, room s = Some r /\ content s = [RulesCard (Room.rules r)]) /\
  length (content s) = 1%nat.
Proof.
  intros Hr. apply reachable_inv in Hr.
  destruct Hr as (_ & _ & _ & (Hrk & _) & _).
  unfold content. destruct (phase s) eqn:Hp; simpl.
  - repeat split; try discriminate;
      destruct (room s); reflexivity.
  - destruct (room s) as [r|] eqn:Er.
    + repeat split; try discriminate. intros _. now exists r.
    + exfalso. apply Hrk; [left; discriminate|reflexivity].
  - destruct (room s) as [r|] eqn:Er.
    + repeat split; try discriminate. intros _. now exists r.
    + exfalso. apply Hrk; [left; discriminate|reflexivity].
Qed.

Lemma content_shows_one_panel_witness :
  content aaa_intro = [IntroCard "GAME" "S" "Tag"] /\
  content aaa_rules = [RulesCard "Run."].
Proof.
  destruct (content_shows_one_panel client_aaa aaa_intro reachable_aaa_intro)
    as (_ & Hi & _).
  destruct (content_shows_one_panel client_aaa aaa_rules reachable_aaa_rules)
    as (_ & _ & Hr & _).
  destruct (Hi eq_refl) as (r & Er & Ec).
  destruct (Hr eq_refl) as (r' & Er' & Ec').
  injection Er as <-. injection Er' as <-. split; assumption.
Defined.

Lemma on_room_update_frame (newRoom : Room.t) (s : Client) :
  playersCount (on_room_update newRoom s) = playersCount s /\
  channel (on_room_update newRoom s) = channel s /\
  room (on_room_update newRoom s) = Some newRoom.
Proof.
  unfold on_room_update.
  destruct (String.eqb (Room.status newRoom) "waiting");
    destruct (_ && _); simpl; repeat split; auto;
    unfold clearIntroTimeout; simpl; destruct (introTimeout s); reflexivity.
Qed.

Lemma handle_event_channel (p : Props) (e : Event) (s : Client) :
  channel s <> None -> channel (handle_event p e s) <> None.
Proof.
  intros Hc. destruct e as [res|ids|newRoom|err|h|]; simpl.
  - destruct (loading s); [|exact Hc]. rewrite init_resume_shape.
    destruct res as [data|x];
      [destruct (String.eqb (Room.status data) "started")|]; simpl;
      try discriminate. exact Hc.
  - destruct (channel s) eqn:E; [|contradiction].
    destruct (on_presence_sync_frame p ids s) as (_ & _ & _ & _ & Ec & _).
    rewrite Ec, E. discriminate.
  - destruct (channel s) eqn:E; [|contradiction].
    destruct (on_room_update_frame newRoom s) as (_ & Ec & _).
    rewrite Ec, E. discriminate.
  - destruct (outbox s); [exact Hc|]. destruct err; exact Hc.
  - unfold fire. destruct (find _ _) as [t|]; [|exact Hc].
    destruct (callback t). exact Hc.
  - exact Hc.
Qed.

Lemma handle_event_playersCount (p : Props) (e : Event) (s : Client) :
  no_sync e -> playersCount (handle_event p e s) = playersCount s.
Proof.
  destruct e as [res|ids|newRoom|err|h|]; simpl; intros He;
    try contradiction.
  - destruct (loading s); [|reflexivity]. rewrite init_resume_shape.
    destruct res as [data|x];
      [destruct (String.eqb (Room.status data) "started")|]; reflexivity.
  - destruct (channel s); [|reflexivity]. apply on_room_update_frame.
  - destruct (outbox s); [reflexivity|]. destruct err; reflexivity.
  - unfold fire. destruct (find _ _) as [t|]; [|reflexivity].
    destruct (callback t). reflexivity.
  - reflexivity.
Qed.

(** X15. The player count shown is the size of the latest snapshot
    handled: a sync overwrites it, and no other event changes it. *)
Theorem players_count_is_last_snapshot (p : Props) (s : Client)
    (ids : list string) (evs : list Event) :
  channel s <> None -> Forall no_sync evs ->
  playersCount (run p (PresenceSync ids :: evs) s) = length ids /\
  fst (status_players (run p (PresenceSync ids :: evs) s)) = length ids.
Proof.
  intros Hc Hev.
  assert (H : playersCount (run p (PresenceSync ids :: evs) s) = length ids).
  { rewrite run_cons.
    apply (run_invariant p (fun s' => playersCount s' = length ids) no_sync);
      auto.
    - intros e s' He Hs'. now rewrite handle_event_playersCount.
    - simpl. destruct (channel s); [|contradiction].
      apply on_presence_sync_frame. }
  split; exact H.
Qed.

Lemma players_count_is_last_snapshot_witness :
  playersCount (run client_aaa
                  [PresenceSync ["aaa"]; PresenceSync ["aaa"; "bbb"];
                   RoomUpdate (room_r1 "started"); Render]
                  aaa_waiting) = 2%nat.
Proof.
  change (playersCount
            (run client_aaa
               (PresenceSync ["aaa"; "bbb"] :: [RoomUpdate (room_r1 "started"); Render])
               (run client_aaa [PresenceSync ["aaa"]] aaa_waiting)) = 2%nat).
  apply (players_count_is_last_snapshot client_aaa
           (run client_aaa [PresenceSync ["aaa"]] aaa_waiting)
           ["aaa"; "bbb"] [RoomUpdate (room_r1 "started"); Render]).
  - discriminate.
  - repeat constructor.
Defined.

(** X16. The cached record is the last one delivered: after a change
    notification, and until the next one, [room] is the pushed record,
    the next render copies it into [roomRef], and the required-player
    figure shown is the one of that record. *)
Theorem cache_holds_last_record (p : Props) (s : Client) (r : Room.t)
    (evs : list Event) :
  channel s <> None -> Forall no_record evs ->
  room (run p (RoomUpdate r :: evs) s) = Some r /\
  roomRef (render (run p (RoomUpdate r :: evs) s)) = Some r /\
  requiredPlayers (run p (RoomUpdate r :: evs) s) = Room.required_players r.
Proof.
  intros Hc Hev.
  assert (H : room (run p (RoomUpdate r :: evs) s) = Some r).
  { rewrite run_cons.
    apply (run_invariant p (fun s' => room s' = Some r) no_record); auto.
    - intros e s' He Hs'. now rewrite handle_event_room.
    - simpl. destruct (channel s); [|contradiction].
      apply on_room_update_frame. }
  split; [exact H | split; [exact H |]].
  unfold requiredPlayers. now rewrite H.
Qed.

Lemma cache_holds_last_record_witness :
  room (run client_aaa
          [RoomUpdate (room_r1 "started"); PresenceSync ["aaa"]; TimerFires 1]
          aaa_waiting) = Some (room_r1 "started").
Proof.
  apply (cache_holds_last_record client_aaa aaa_waiting (room_r1 "started")
           [PresenceSync ["aaa"]; TimerFires 1]).
  - discriminate.
  - repeat constructor.
Defined.

(** X17. A channel exists only after a successful load; it is the
    channel [room-<roomId>] with the client's own identity as presence
    key, and once created it is never dropped by an event. *)
Theorem channel_is_room_and_client (p : Props) (evs evs' : list Event)
    (c : Channel) :
  channel (run p evs (mount p)) = Some c ->
  topic c = "room-" ++ roomId p /\ presence_key c = clientId p /\
  room (run p evs (mount p)) <> None /\
  loading (run p evs (mount p)) = false /\
  channel (run p (evs ++ evs') (mount p)) = Some c.
Proof.
  intros Hc.
  assert (Hinv : forall l, run_inv p (run p l (mount p)))
    by (intros l; apply reachable_inv; now exists l).
  destruct (Hinv evs) as (_ & _ & _ & _ & Hch).
  destruct (Hch c Hc) as (-> & Hl & Hr).
  repeat split; auto.
  destruct (Hinv (evs ++ evs')%list) as (_ & _ & _ & _ & Hch').
  destruct (channel (run p (evs ++ evs') (mount p))) as [c'|] eqn:E.
  - now destruct (Hch' c' E) as (-> & _).
  - exfalso. rewrite run_app in E. revert E.
    apply (run_invariant p (fun s' => channel s' <> None) (fun _ => True)).
    + intros e s' _. apply handle_event_channel.
    + apply Forall_forall. auto.
    + rewrite Hc. discriminate.
Qed.

Lemma channel_is_room_and_client_witness :
  topic (mkChannel "room-r1" "aaa") = "room-r1" /\
  channel aaa_rules = Some (mkChannel "room-r1" "aaa").
Proof.
  destruct (channel_is_room_and_client client_aaa
              [InitResult (inl (room_r1 "waiting"))]
              [Render; RoomUpdate (room_r1 "started"); Render; TimerFires 1; Render]
              (mkChannel "room-r1" "aaa") eq_refl)
    as (Ht & _ & _ & _ & Hc).
  split; [exact Ht | exact Hc].
Defined.

(** ** Teardown *)

(** X18. After the teardown of a client whose load has answered, no
    event changes its phase, starts a timer or sends a request: the
    pending timer is cancelled and the channel is gone. *)
Theorem cleanup_silences_client (p : Props) (s : Client) (evs : list Event) :
  reachable p s -> loading s = false ->
  phase (run p evs (cleanup s)) = phase s /\
  outbox (run p evs (cleanup s)) = outbox s /\
  timers (run p evs (cleanup s)) = [] /\
  channel (run p evs (cleanup s)) = None.
Proof.
  intros Hr Hl. apply reachable_owned in Hr.
  assert (H : loading (run p evs (cleanup s)) = false /\
              channel (run p evs (cleanup s)) = None /\
              timers (run p evs (cleanup s)) = [] /\
              phase (run p evs (cleanup s)) = phase s /\
              outbox (run p evs (cleanup s)) = outbox s).
  { apply (run_invariant p
             (fun s' => loading s' = false /\ channel s' = None /\
                        timers s' = [] /\ phase s' = phase s /\
                        outbox s' = outbox s) (fun _ => True)).
    - intros e s' _ (H1 & H2 & H3 & H4 & H5).
      destruct e as [res|ids|newRoom|err|h|]; simpl.
      + rewrite H1. auto.
      + rewrite H2. auto.
      + rewrite H2. auto.
      + destruct (outbox s') eqn:E; [repeat split; congruence|].
        destruct err; simpl; repeat split; congruence.
      + unfold fire. rewrite H3. simpl. auto.
      + auto.
    - apply Forall_forall. auto.
    - unfold cleanup. rewrite (clearIntroTimeout_fields s Hr). simpl. auto. }
  destruct H as (_ & H2 & H3 & H4 & H5). auto.
Qed.

Lemma cleanup_silences_client_witness :
  phase (run client_aaa
           [TimerFires 1; RoomUpdate (room_r1 "waiting"); PresenceSync ["aaa"; "bbb"]]
           (cleanup aaa_intro)) = intro.
Proof.
  apply (cleanup_silences_client client_aaa aaa_intro
           [TimerFires 1; RoomUpdate (room_r1 "waiting"); PresenceSync ["aaa"; "bbb"]]
           reachable_aaa_intro eq_refl).
Defined.

(** X19. A teardown that runs while [init] still waits for the point
    read cancels nothing: the state is unchanged, and when the read
    answers the channel is opened all the same, with the intro timer if
    the room is [started]. *)
Theorem cleanup_during_load_cancels_nothing (p : Props) (s : Client)
    (data : Room.t) :
  reachable p s -> loading s = true ->
  cleanup s = s /\
  channel (handle_event p (InitResult (inl data)) (cleanup s))
    = Some (mkChannel ("room-" ++ roomId p) (clientId p)) /\
  (Room.status data = "started" ->
   timers (handle_event p (InitResult (inl data)) (cleanup s))
     = [mkTimer (nextHandle s) 5000 (SetPhase rules)]).
Proof.
  intros Hr Hl. apply reachable_inv in Hr.
  destruct Hr as (Hown & _ & _ & (_ & Hld) & _).
  destruct (proj2 Hown Hl) as [Ht Hc]. destruct (Hld Hl) as [_ Hi].
  assert (E : cleanup s = s).
  { unfold cleanup, clearIntroTimeout. rewrite Hi.
    destruct s; simpl in *; now subst. }
  rewrite E. unfold handle_event. rewrite Hl, init_resume_shape.
  split; [reflexivity|].
  destruct (String.eqb_spec (Room.status data) "started") as [Hs|Hs]; simpl.
  - rewrite Ht. auto.
  - split; [reflexivity|]. intros H. contradiction.
Qed.

Lemma cleanup_during_load_cancels_nothing_witness :
  cleanup (mount client_aaa) = mount client_aaa /\
  timers (handle_event client_aaa (InitResult (inl (room_r1 "started")))
            (cleanup (mount client_aaa)))
    = [mkTimer 1 5000 (SetPhase rules)].
Proof.
  assert (Hr : reachable client_aaa (mount client_aaa)) by (exists []; reflexivity).
  destruct (cleanup_during_load_cancels_nothing client_aaa (mount client_aaa)
              (room_r1 "started") Hr eq_refl) as (Hc & _ & Ht).
  split; [exact Hc | exact (Ht eq_refl)].
Defined.

(** ** The request sent more than once *)

(** X20. On the store model the elector's request is idempotent, and the
    requests of two clients commute: sending it again, or from another
    client, leaves the table as one request from each room's elector
    does. *)
Theorem start_request_idempotent (p p' : Props) (rows : list Room.t) :
  update_room (start_request p) (update_room (start_request p) rows)
  = update_room (start_request p) rows /\
  update_all [start_request p; start_request p'] rows
  = update_all [start_request p'; start_request p] rows.
Proof.
  unfold update_all, update_room. simpl. rewrite !map_map. split;
    apply map_ext; intros r; rewrite !update_row_start; simpl;
    destruct (String.eqb (Room.id r) (roomId p)) eqn:E;
    destruct (String.eqb (Room.id r) (roomId p')) eqn:E'; simpl;
    rewrite ?E, ?E'; reflexivity.
Qed.
